(** * The Spackler Index service worker (app/static/sw.js)

    A shallow embedding of the worker's four event handlers (install,
    activate, fetch, message) over a small model of the platform they run
    on: CacheStorage, the network, and promises.

    - A promise is represented by its eventual settlement ([Fulfilled],
      [Rejected], or [Pending] for one that never settles).  A promise is
      itself a JavaScript value ([VPromise]), and like every object it is
      truthy whatever its settlement.
    - Handlers run in a state monad over the origin's cache storage and a
      trace of the platform calls they issue; a JavaScript exception is the
      [Throw] completion, which a promise callback turns into a rejection.
    - The network and the failure of [caches.delete] are oracles of the
      environment: the worker has no control over them.  A write to a
      cache is rejected as the Cache API says: for a request that is not a
      GET over http(s), for a response with status 206, and for what the
      environment refuses on grounds the model does not represent (a
      [Vary: *] header, an exhausted quota).  Opening a cache is taken to
      succeed.
    - The [console.log] calls are left out. *)

From Stdlib Require Import String Ascii NArith List Bool Permutation.
From stdpp Require Import gmap strings list.
Import ListNotations.

Open Scope string_scope.

(** ** Requests and responses *)

(** [new URL(request.url)]: a request's URL is absolute; it is kept by its
    components, [href] being the serialisation the cache keys on. *)
Record URL := mkURL {
  origin : string;
  pathname : string;
  search : string
}.

Definition href (u : URL) : string := origin u ++ pathname u ++ search u.

(** The scheme of the URL is [http] or [https]; [origin] starts with it. *)
Definition http_scheme (u : URL) : bool :=
  String.prefix "http://" (origin u) || String.prefix "https://" (origin u).

Record Request := mkRequest {
  method : string;
  url : URL;
  mode : string
}.

Record Response := mkResponse {
  status : N;
  body : string
}.

(** [response.ok]: the status is in the range 200-299. *)
Definition ok (r : Response) : bool :=
  (200 <=? status r)%N && (status r <=? 299)%N.

(** [response.clone()]: a second response with the same status and bytes. *)
Definition clone (r : Response) : Response :=
  {| status := status r; body := body r |}.

(** ** JavaScript values and promises *)

#[local] Unset Elimination Schemes.
Inductive value :=
| VUndefined
| VNull
| VBool (b : bool)
| VString (s : string)
| VResponse (r : Response)
| VCache (name : string)
| VArray (vs : list value)
| VPromise (p : settled)
with settled :=
| Fulfilled (v : value)
| Rejected (e : string)
| Pending.
#[local] Set Elimination Schemes.

(** ToBoolean: only [undefined], [null], [false] and the empty string are
    falsy among the values above; every object is truthy. *)
Definition truthy (v : value) : bool :=
  match v with
  | VUndefined | VNull => false
  | VBool b => b
  | VString s => negb (s =? "")
  | VResponse _ | VCache _ | VArray _ | VPromise _ => true
  end.

(** Resolving a promise with a value: a promise is adopted, anything else
    fulfils. *)
Definition resolve (v : value) : settled :=
  match v with
  | VPromise p => p
  | _ => Fulfilled v
  end.

(** ** The platform *)

Inductive NetOutcome :=
| NetOk (r : Response)
| NetFail
| NetHang.

Record Env := mkEnv {
  scope_origin : string;
  network : Request -> NetOutcome;
  delete_rejects : string -> bool;
  put_rejects : Response -> bool
}.

Inductive Event :=
| EvCachesOpen (name : string)
| EvCachesKeys
| EvCachesDelete (name : string)
| EvCachesMatch (key : string)
| EvCachePut (name key : string) (r : Response)
| EvCacheAddAll (name : string) (keys : list string)
| EvFetch (req : Request)
| EvSkipWaiting
| EvClientsClaim.

(** The origin's CacheStorage: named caches in creation order, each a map
    from request URL to response. *)
Record World := mkWorld {
  storage : list (string * gmap string Response);
  trace : list Event
}.

Definition storage_names (st : list (string * gmap string Response)) : list string :=
  map fst st.

Fixpoint storage_lookup (name : string) (st : list (string * gmap string Response))
  : option (gmap string Response) :=
  match st with
  | [] => None
  | (n, c) :: rest => if n =? name then Some c else storage_lookup name rest
  end.

(** [caches.match]: the caches are searched in creation order. *)
Fixpoint storage_match (key : string) (st : list (string * gmap string Response))
  : option Response :=
  match st with
  | [] => None
  | (_, c) :: rest =>
      match c !! key with
      | Some r => Some r
      | None => storage_match key rest
      end
  end.

Fixpoint storage_put (name key : string) (r : Response)
  (st : list (string * gmap string Response)) : list (string * gmap string Response) :=
  match st with
  | [] => []
  | (n, c) :: rest =>
      if n =? name then (n, <[key := r]> c) :: rest
      else (n, c) :: storage_put name key r rest
  end.

Fixpoint storage_remove (name : string) (st : list (string * gmap string Response))
  : list (string * gmap string Response) :=
  match st with
  | [] => []
  | (n, c) :: rest =>
      if n =? name then rest else (n, c) :: storage_remove name rest
  end.

Definition storage_has (name : string) (st : list (string * gmap string Response)) : bool :=
  match storage_lookup name st with Some _ => true | None => false end.

(** [caches.open] creates the cache, empty, after the existing ones when
    there is none of that name. *)
Definition storage_open (name : string) (st : list (string * gmap string Response))
  : list (string * gmap string Response) :=
  if storage_has name st then st else st ++ [(name, ∅)].

(** The cache names of a storage are pairwise distinct. *)
Definition storage_wf (st : list (string * gmap string Response)) : Prop :=
  NoDup (storage_names st).

(** ** The handler monad: state, trace and exceptions *)

Inductive completion (A : Type) :=
| Normal (a : A)
| Throw (e : string).
Arguments Normal {A} a.
Arguments Throw {A} e.

Definition M (A : Type) : Type := World -> completion A * World.

Definition ret {A} (a : A) : M A := fun w => (Normal a, w).

Definition bind {A B} (m : M A) (k : A -> M B) : M B :=
  fun w =>
    match m w with
    | (Normal a, w') => k a w'
    | (Throw e, w') => (Throw e, w')
    end.

Definition throw {A} (e : string) : M A := fun w => (Throw e, w).

Declare Scope js_scope.
Delimit Scope js_scope with js.
Notation "x <- c ;; k" := (bind c (fun x => k))
  (at level 100, c at next level, right associativity) : js_scope.
Notation "c ;;; k" := (bind c (fun _ => k))
  (at level 100, right associativity) : js_scope.
Open Scope js_scope.

Definition emit (e : Event) : M unit :=
  fun w => (Normal tt, {| storage := storage w; trace := trace w ++ [e] |}).

Definition get_storage : M (list (string * gmap string Response)) :=
  fun w => (Normal (storage w), w).

Definition set_storage (st : list (string * gmap string Response)) : M unit :=
  fun w => (Normal tt, {| storage := st; trace := trace w |}).

(** [p.then(f)]: the callback runs on fulfilment; what it returns resolves
    the new promise, what it throws rejects it. *)
Definition settle_with (m : M value) : M settled :=
  fun w =>
    match m w with
    | (Normal v, w') => (Normal (resolve v), w')
    | (Throw e, w') => (Normal (Rejected e), w')
    end.

Definition then_ (p : settled) (f : value -> M value) : M settled :=
  match p with
  | Fulfilled v => settle_with (f v)
  | Rejected e => ret (Rejected e)
  | Pending => ret Pending
  end.

(** [p.catch(f)]. *)
Definition catch_ (p : settled) (f : string -> M value) : M settled :=
  match p with
  | Fulfilled v => ret (Fulfilled v)
  | Rejected e => settle_with (f e)
  | Pending => ret Pending
  end.

(** A call that returns a promise, used where a value is expected. *)
Definition promise (m : M settled) : M value :=
  p <- m ;; ret (VPromise p).

(** [a || b]: [b] is evaluated only when [a] is falsy. *)
Definition or_ (a : value) (b : M value) : M value :=
  if truthy a then ret a else b.

(** ** Platform calls *)

Section Worker.

Variable env : Env.

(** [fetch(request)]: settles as the network decides. *)
Definition fetch (req : Request) : M settled :=
  emit (EvFetch req) ;;;
  ret (match network env req with
       | NetOk r => Fulfilled (VResponse r)
       | NetFail => Rejected "TypeError: Failed to fetch"
       | NetHang => Pending
       end).

(** A root-relative path given where a request is expected is resolved
    against the worker's own origin and requested with GET. *)
Definition request_of_path (path : string) : Request :=
  {| method := "GET";
     url := {| origin := scope_origin env; pathname := path; search := "" |};
     mode := "cors" |}.

(** [caches.open(name)]: the cache is created when it does not exist. *)
Definition caches_open (name : string) : M settled :=
  emit (EvCachesOpen name) ;;;
  st <- get_storage ;;
  set_storage (storage_open name st) ;;;
  ret (Fulfilled (VCache name)).

(** [caches.keys()]: the names, in creation order. *)
Definition caches_keys : M settled :=
  emit EvCachesKeys ;;;
  st <- get_storage ;;
  ret (Fulfilled (VArray (map VString (storage_names st)))).

(** [caches.delete(name)]: resolves to whether a cache was deleted; the
    environment may make it reject, and then nothing is deleted. *)
Definition caches_delete (name : string) : M settled :=
  emit (EvCachesDelete name) ;;;
  if delete_rejects env name then ret (Rejected "Error: cache deletion failed")
  else
    st <- get_storage ;;
    if storage_has name st
    then set_storage (storage_remove name st) ;;; ret (Fulfilled (VBool true))
    else ret (Fulfilled (VBool false)).

(** [caches.match(request)] on the whole storage. *)
Definition caches_match (req : Request) : M settled :=
  emit (EvCachesMatch (href (url req))) ;;;
  st <- get_storage ;;
  ret (match storage_match (href (url req)) st with
       | Some r => Fulfilled (VResponse r)
       | None => Fulfilled VUndefined
       end).

(** The responses a cache takes: any status but 206, and nothing the
    environment refuses. *)
Definition storable (r : Response) : bool :=
  negb (status r =? 206)%N && negb (put_rejects env r).

(** The writes [cache.put] accepts: a GET request over http(s) and a
    response the cache takes. *)
Definition put_accepts (req : Request) (r : Response) : bool :=
  (method req =? "GET") && http_scheme (url req) && storable r.

(** [cache.put(request, response)]: the entry of the request's URL is
    replaced; a write that is not accepted rejects and stores nothing. *)
Definition cache_put (cache : value) (req : Request) (resp : value) : M settled :=
  match cache, resp with
  | VCache name, VResponse r =>
      emit (EvCachePut name (href (url req)) r) ;;;
      if put_accepts req r then
        st <- get_storage ;;
        set_storage (storage_put name (href (url req)) r st) ;;;
        ret (Fulfilled VUndefined)
      else ret (Rejected "TypeError: the response cannot be stored")
  | VCache _, _ => ret (Rejected "TypeError: not a Response")
  | _, _ => throw "TypeError: cache.put is not a function"
  end.

(** [response.clone()] on a value. *)
Definition js_clone (v : value) : M value :=
  match v with
  | VResponse r => ret (VResponse (clone r))
  | _ => throw "TypeError: response.clone is not a function"
  end.

(** The fetches of [cache.addAll]: the requests of the batch are issued
    in order, whatever becomes of the others; a request that is not over
    http(s) ends the batch ([None]). *)
Fixpoint fetch_all (reqs : list Request) : M (option (list NetOutcome)) :=
  match reqs with
  | [] => ret (Some [])
  | q :: rest =>
      if http_scheme (url q) then
        emit (EvFetch q) ;;;
        os <- fetch_all rest ;;
        ret (option_map (cons (network env q)) os)
      else ret None
  end.

(** What makes [cache.addAll] reject: a failed fetch, a status that is
    not ok, or a response the cache does not take. *)
Definition outcome_bad (o : NetOutcome) : bool :=
  match o with
  | NetOk r => negb (ok r && storable r)
  | NetFail => true
  | NetHang => false
  end.

Definition outcome_hangs (o : NetOutcome) : bool :=
  match o with NetHang => true | _ => false end.

Fixpoint put_all (name : string) (reqs : list Request) (os : list NetOutcome)
  (st : list (string * gmap string Response)) : list (string * gmap string Response) :=
  match reqs, os with
  | q :: reqs', NetOk r :: os' => put_all name reqs' os' (storage_put name (href (url q)) r st)
  | _, _ => st
  end.

(** [cache.addAll(urls)]: all-or-nothing; it rejects when a request is not
    over http(s), when a fetch fails, and when an answer has a status that
    is not ok or is one the cache does not take; it then writes nothing. *)
Definition cache_addAll (cache : value) (paths : list string) : M settled :=
  match cache with
  | VCache name =>
      let reqs := map request_of_path paths in
      emit (EvCacheAddAll name (map (fun q => href (url q)) reqs)) ;;;
      fetched <- fetch_all reqs ;;
      match fetched with
      | None => ret (Rejected "TypeError: Request scheme is unsupported")
      | Some os =>
          if existsb outcome_bad os then ret (Rejected "TypeError: Request failed")
          else if existsb outcome_hangs os then ret Pending
          else
            st <- get_storage ;;
            set_storage (put_all name reqs os st) ;;;
            ret (Fulfilled VUndefined)
      end
  | _ => throw "TypeError: cache.addAll is not a function"
  end.

(** [self.skipWaiting()] and [self.clients.claim()]. *)
Definition skipWaiting : M settled :=
  emit EvSkipWaiting ;;; ret (Fulfilled VUndefined).

Definition clients_claim : M settled :=
  emit EvClientsClaim ;;; ret (Fulfilled VUndefined).

(** [array.map(f)]: the callback runs on every element, in order. *)
Fixpoint map_values (f : value -> M value) (vs : list value) : M (list value) :=
  match vs with
  | [] => ret []
  | v :: rest =>
      v' <- f v ;;
      rest' <- map_values f rest ;;
      ret (v' :: rest')
  end.

Definition js_map (arr : value) (f : value -> M value) : M value :=
  match arr with
  | VArray vs => vs' <- map_values f vs ;; ret (VArray vs')
  | _ => throw "TypeError: cacheNames.map is not a function"
  end.

(** [Promise.all(values)]: rejected as soon as one element is, pending
    while one never settles, fulfilled with the settled values otherwise. *)
Definition is_rejected (v : value) : option string :=
  match v with VPromise (Rejected e) => Some e | _ => None end.

Definition is_pending (v : value) : bool :=
  match v with VPromise Pending => true | _ => false end.

Definition settled_value (v : value) : value :=
  match v with VPromise (Fulfilled x) => x | _ => v end.

Fixpoint first_rejection (vs : list value) : option string :=
  match vs with
  | [] => None
  | v :: rest =>
      match is_rejected v with
      | Some e => Some e
      | None => first_rejection rest
      end
  end.

Definition promise_all (arr : value) : M settled :=
  match arr with
  | VArray vs =>
      ret (match first_rejection vs with
           | Some e => Rejected e
           | None =>
               if existsb is_pending vs then Pending
               else Fulfilled (VArray (map settled_value vs))
           end)
  | _ => ret (Rejected "TypeError: object is not iterable")
  end.

(** ** The worker *)

Definition CACHE_VERSION : string := "v3".
Definition CACHE_NAME : string := "spackler-" ++ CACHE_VERSION.

Definition urlsToCache : list string :=
  [ "/";
    "/static/index.html";
    "/static/offline.html";
    "/manifest.json";
    "/static/manifest.json";
    "/static/images/apple-touch-icon.png";
    "/static/images/icon-192.png";
    "/static/images/icon-512.png";
    "/static/images/gopher.jpg";
    "/static/images/spackler-logo.jpg" ].

(** The [install] listener; the result is the promise handed to
    [event.waitUntil]. *)
Definition on_install : M settled :=
  p <- caches_open CACHE_NAME ;;
  p <- then_ p (fun cache => promise (cache_addAll cache urlsToCache)) ;;
  then_ p (fun _ => promise skipWaiting).

(** The callback of [cacheNames.map] in the [activate] listener. *)
Definition delete_if_stale (cacheName : value) : M value :=
  match cacheName with
  | VString s =>
      if negb (s =? CACHE_NAME) && String.prefix "spackler-" s
      then promise (caches_delete s)
      else ret VUndefined
  | _ => throw "TypeError: cacheName.startsWith is not a function"
  end.

(** The [activate] listener; the result is the promise handed to
    [event.waitUntil]. *)
Definition on_activate : M settled :=
  p <- caches_keys ;;
  p <- then_ p (fun cacheNames =>
         deletions <- js_map cacheNames delete_if_stale ;;
         promise (promise_all deletions)) ;;
  then_ p (fun _ => promise clients_claim).

(** The callback shared by both caching strategies: clone the fresh
    response, start writing the clone to the current cache without waiting
    for the write, and hand the response on. *)
Definition cache_fresh (request : Request) (response : value) : M value :=
  clone <- js_clone response ;;
  c <- caches_open CACHE_NAME ;;
  then_ c (fun cache => promise (cache_put cache request clone)) ;;;
  ret response.

(** The [fetch] listener.  [None]: the listener returned without calling
    [event.respondWith]; [Some p]: it called [event.respondWith(p)]. *)
Definition on_fetch (request : Request) : M (option settled) :=
  if negb (method request =? "GET") then ret None
  else
    let requestUrl := url request in
    if String.prefix "/api/" (pathname requestUrl) then ret None
    else if mode request =? "navigate" then
      p <- fetch request ;;
      p <- then_ p (cache_fresh request) ;;
      p <- catch_ p (fun _ =>
             m <- caches_match request ;;
             promise (then_ m (fun cached =>
               or_ cached
                 (promise (caches_match (request_of_path "/static/offline.html")))))) ;;
      ret (Some p)
    else
      m <- caches_match request ;;
      p <- then_ m (fun cached =>
             p <- fetch request ;;
             p <- then_ p (cache_fresh request) ;;
             fetchPromise <- catch_ p (fun _ => ret VNull) ;;
             first <- or_ cached (ret (VPromise fetchPromise)) ;;
             or_ first
               (promise (caches_match (request_of_path "/static/offline.html")))) ;;
      ret (Some p).

(** The [message] listener. *)
Definition on_message (data : value) : M unit :=
  match data with
  | VString s => if s =? "skipWaiting" then skipWaiting ;;; ret tt else ret tt
  | _ => ret tt
  end.

End Worker.

(** ** What the page receives *)

Inductive Delivery :=
| PassThrough
| Served (r : Response)
| NetworkError
| Hang.

(** [event.respondWith(p)]: the page gets the response [p] fulfils with; a
    rejection, or a fulfilment with anything that is not a response, is a
    network error. *)
Definition respondWith (p : settled) : Delivery :=
  match p with
  | Fulfilled (VResponse r) => Served r
  | Fulfilled _ => NetworkError
  | Rejected _ => NetworkError
  | Pending => Hang
  end.

(** Without [event.respondWith] the browser handles the request itself. *)
Definition delivery (o : completion (option settled)) : Delivery :=
  match o with
  | Normal None => PassThrough
  | Normal (Some p) => respondWith p
  | Throw _ => PassThrough
  end.

(** The cache of the current generation. *)
Definition current_cache (w : World) : option (gmap string Response) :=
  storage_lookup CACHE_NAME (storage w).

(** The names of this application's caches. *)
Definition has_prefix (name : string) : bool := String.prefix "spackler-" name.

(** The caches [activate] deletes: the condition of its [if]. *)
Definition stale (name : string) : bool :=
  negb (name =? CACHE_NAME) && has_prefix name.

Definition deletions_of (t : list Event) : list string :=
  flat_map (fun e => match e with EvCachesDelete n => [n] | _ => [] end) t.

(** ** Vocabulary of the statements *)

(** The key of the offline fallback document. *)
Definition offline_key (env : Env) : string :=
  href (url (request_of_path env "/static/offline.html")).

(** The requests the fetch listener answers itself: GET, outside [/api/]. *)
Definition cached_by (request : Request) : Prop :=
  method request = "GET" /\ String.prefix "/api/" (pathname (url request)) = false.

(** The entry of a key in the cache of the current generation. *)
Definition cached_in_current (w : World) (key : string) : option Response :=
  match current_cache w with
  | Some c => c !! key
  | None => None
  end.

(** The storage once the listener has opened the current cache and handed
    it the clone of a fresh response: the clone is the entry of the request
    when the write is accepted. *)
Definition written (env : Env) (request : Request) (r : Response)
  (st : list (string * gmap string Response)) : list (string * gmap string Response) :=
  if put_accepts env request (clone r)
  then storage_put CACHE_NAME (href (url request)) (clone r) (storage_open CACHE_NAME st)
  else storage_open CACHE_NAME st.

(** The world once the background fetch of the stale-while-revalidate
    branch has settled. *)
Definition revalidated (env : Env) (request : Request) (w : World) : World :=
  match network env request with
  | NetOk r =>
      {| storage := written env request r (storage w);
         trace := trace w ++ [EvCachesMatch (href (url request)); EvFetch request;
                              EvCachesOpen CACHE_NAME;
                              EvCachePut CACHE_NAME (href (url request)) (clone r)] |}
  | _ =>
      {| storage := storage w;
         trace := trace w ++ [EvCachesMatch (href (url request)); EvFetch request] |}
  end.

(** A cache survives [activate] unless it is stale and its deletion goes
    through. *)
Definition kept (env : Env) (name : string) : bool :=
  negb (stale name && negb (delete_rejects env name)).

(** The storage after [caches.delete] has run for the stale names among
    [names], in that order. *)
Fixpoint sweep (env : Env) (names : list string)
  (st : list (string * gmap string Response)) : list (string * gmap string Response) :=
  match names with
  | [] => st
  | n :: rest =>
      sweep env rest
        (if stale n && negb (delete_rejects env n) then storage_remove n st else st)
  end.

(** Some stale cache among [names] cannot be deleted. *)
Definition deletion_fails (env : Env) (names : list string) : bool :=
  existsb (fun n => stale n && delete_rejects env n) names.

(** The platform calls issued between two worlds of one run. *)
Definition events_since (w w' : World) : list Event :=
  skipn (length (trace w)) (trace w').

(** The requests of the manifest, as [cache.addAll] issues them. *)
Definition manifest_requests (env : Env) : list Request :=
  map (request_of_path env) urlsToCache.

(** ** Sample data *)

Definition site : string := "https://spackler.example".

Definition offline_doc : Response := {| status := 200; body := "<h1>Offline</h1>" |}.

Definition not_found : Response := {| status := 404; body := "Not Found" |}.

Definition fresh_page : Response := {| status := 200; body := "<h1>Courses</h1>" |}.

Definition old_script : Response := {| status := 200; body := "v1" |}.

Definition page_request : Request :=
  {| method := "GET"; url := mkURL site "/courses" "?sort=rank"; mode := "navigate" |}.

Definition script_request : Request :=
  {| method := "GET"; url := mkURL site "/static/app.js" ""; mode := "no-cors" |}.

Definition post_request : Request :=
  {| method := "POST"; url := mkURL site "/rate" ""; mode := "cors" |}.

Definition api_request : Request :=
  {| method := "GET"; url := mkURL site "/api/courses" ""; mode := "cors" |}.

(** A storage as a successful install leaves it, reduced to the offline
    document, next to a cache of another application on the origin. *)
Definition shell_world : World :=
  {| storage := [("spackler-v3", {[ (site ++ "/static/offline.html") := offline_doc ]});
                 ("fonts", ∅)];
     trace := [] |}.

Definition offline_env : Env :=
  {| scope_origin := site;
     network := fun _ => NetFail;
     delete_rejects := fun _ => false;
     put_rejects := fun _ => false |}.

Definition online_env (r : Response) : Env :=
  {| scope_origin := site;
     network := fun _ => NetOk r;
     delete_rejects := fun _ => false;
     put_rejects := fun _ => false |}.

Definition new_script : Response := {| status := 200; body := "v2" |}.

Definition hanging_env : Env :=
  {| scope_origin := site;
     network := fun _ => NetHang;
     delete_rejects := fun _ => false;
     put_rejects := fun _ => false |}.

(** The same storage once the script has been cached. *)
Definition warm_world : World :=
  {| storage := [("spackler-v3",
                  {[ (site ++ "/static/offline.html") := offline_doc;
                     (site ++ "/static/app.js") := old_script ]});
                 ("fonts", ∅)];
     trace := [] |}.

Definition font : Response := {| status := 200; body := "wOF2" |}.

(** A storage with two stale generations, the current one, and the cache
    of another application. *)
Definition crowded_world : World :=
  {| storage := [("spackler-v1", {[ (site ++ "/") := old_script ]});
                 ("fonts", {[ "https://fonts.example/inter.woff2" := font ]});
                 ("spackler-v2", ∅);
                 ("spackler-v3", {[ (site ++ "/static/offline.html") := offline_doc ]})];
     trace := [] |}.

(** An environment in which the deletion of the oldest generation fails. *)
Definition stubborn_env : Env :=
  {| scope_origin := site;
     network := fun _ => NetFail;
     delete_rejects := fun n => n =? "spackler-v1";
     put_rejects := fun _ => false |}.

Definition asset : Response := {| status := 200; body := "asset" |}.

(** An environment in which one image of the manifest cannot be fetched. *)
Definition flaky_env : Env :=
  {| scope_origin := site;
     network := fun q =>
       if pathname (url q) =? "/static/images/gopher.jpg" then NetFail else NetOk asset;
     delete_rejects := fun _ => false;
     put_rejects := fun _ => false |}.

(** The storage a previous deployment left behind. *)
Definition previous_world : World :=
  {| storage := [("spackler-v1", {[ (site ++ "/") := old_script ]});
                 ("fonts", {[ "https://fonts.example/inter.woff2" := font ]});
                 ("spackler-v2", ∅)];
     trace := [] |}.

(** ** Vocabulary of the further properties *)

(** The requests sent to the network among the calls of a trace. *)
Definition fetches_of (t : list Event) : list Request :=
  flat_map (fun e => match e with EvFetch q => [q] | _ => [] end) t.

(** The platform calls of request routing: lookups, fetches, and opening
    or writing the cache of the current generation. *)
Definition routing_call (e : Event) : bool :=
  match e with
  | EvCachesMatch _ | EvFetch _ => true
  | EvCachesOpen n | EvCachePut n _ _ => n =? CACHE_NAME
  | _ => false
  end.

(** The platform calls of an install: opening and filling the cache of the
    current generation, fetches, and [skipWaiting]. *)
Definition install_call (e : Event) : bool :=
  match e with
  | EvCachesOpen n | EvCacheAddAll n _ => n =? CACHE_NAME
  | EvFetch _ | EvSkipWaiting => true
  | _ => false
  end.

(** The response [caches.match] finds in a cache created before the first
    cache called [name]. *)
Fixpoint match_before (name key : string) (st : list (string * gmap string Response))
  : option Response :=
  match st with
  | [] => None
  | (n, c) :: rest =>
      if n =? name then None
      else match c !! key with
           | Some r => Some r
           | None => match_before name key rest
           end
  end.

(** The worker's origin is over http(s). *)
Definition http_origin (env : Env) : bool :=
  String.prefix "http://" (scope_origin env) || String.prefix "https://" (scope_origin env).

(** [cache.addAll] takes the whole manifest: the origin is over http(s)
    and every entry is fetched with an ok status and a response the cache
    takes (not a 206, not refused by the environment). *)
Definition manifest_ok (env : Env) : Prop :=
  http_origin env = true /\
  forall path, In path urlsToCache ->
    exists r, network env (request_of_path env path) = NetOk r /\
              ok r = true /\ storable env r = true.

(** A partial answer, as a server gives to a range request. *)
Definition partial_content : Response := {| status := 206; body := "bytes 0-99" |}.

(** An environment whose cache refuses the asset (its [Vary] header is
    [*], say). *)
Definition refusing_env : Env :=
  {| scope_origin := site;
     network := fun _ => NetOk asset;
     delete_rejects := fun _ => false;
     put_rejects := fun r => body r =? "asset" |}.

(** A storage in which a cache made by the page itself, older than the
    current generation's, holds the script. *)
Definition shadowed_world : World :=
  {| storage := [("pages", {[ (site ++ "/static/app.js") := old_script ]});
                 ("spackler-v3", {[ (site ++ "/static/offline.html") := offline_doc ]})];
     trace := [] |}.

(** An environment in which one image of the manifest is answered 404. *)
Definition missing_env : Env :=
  {| scope_origin := site;
     network := fun q =>
       if pathname (url q) =? "/static/images/gopher.jpg" then NetOk not_found
       else NetOk asset;
     delete_rejects := fun _ => false;
     put_rejects := fun _ => false |}.

(** An environment in which the fetch of one image never settles. *)
Definition slow_env : Env :=
  {| scope_origin := site;
     network := fun q =>
       if pathname (url q) =? "/static/images/gopher.jpg" then NetHang else NetOk asset;
     delete_rejects := fun _ => false;
     put_rejects := fun _ => false |}.

(** The storage once the page has been visited online. *)
Definition visited_world : World :=
  {| storage := [("spackler-v3",
                  {[ (site ++ "/static/offline.html") := offline_doc;
                     (site ++ "/courses?sort=rank") := fresh_page ]})];
     trace := [] |}.

(** An environment that serves the offline document and the assets. *)
Definition origin_env : Env :=
  {| scope_origin := site;
     network := fun q =>
       if pathname (url q) =? "/static/offline.html" then NetOk offline_doc
       else NetOk asset;
     delete_rejects := fun _ => false;
     put_rejects := fun _ => false |}.

Definition icon_request : Request :=
  {| method := "GET"; url := mkURL site "/static/images/icon-192.png" ""; mode := "no-cors" |}.

(** * Properties *)

(** ** The storage *)

Lemma storage_lookup_app name st st' :
  storage_lookup name (st ++ st') =
  match storage_lookup name st with
  | Some c => Some c
  | None => storage_lookup name st'
  end.
Proof.
  induction st as [|[n c] st IH]; simpl; [reflexivity|].
  destruct (n =? name); [reflexivity|apply IH].
Qed.

Lemma storage_lookup_open name st :
  storage_lookup name (storage_open name st) =
  Some (match storage_lookup name st with Some c => c | None => ∅ end).
Proof.
  unfold storage_open, storage_has.
  destruct (storage_lookup name st) as [c|] eqn:E; [exact E|].
  rewrite storage_lookup_app, E. simpl. now rewrite String.eqb_refl.
Qed.

Lemma storage_lookup_open_ne name n st :
  n <> name -> storage_lookup n (storage_open name st) = storage_lookup n st.
Proof.
  intros Hne. unfold storage_open. destruct (storage_has name st); [reflexivity|].
  rewrite storage_lookup_app. destruct (storage_lookup n st); [reflexivity|].
  simpl. destruct (String.eqb_spec name n); congruence.
Qed.

Lemma storage_has_open name st : storage_has name (storage_open name st) = true.
Proof. unfold storage_has at 1. now rewrite storage_lookup_open. Qed.

Lemma storage_lookup_put name key r st :
  storage_lookup name (storage_put name key r st) =
  match storage_lookup name st with
  | Some c => Some (<[key := r]> c)
  | None => None
  end.
Proof.
  induction st as [|[n c] st IH]; simpl; [reflexivity|].
  destruct (n =? name) eqn:E; simpl; rewrite E; [reflexivity|apply IH].
Qed.

Lemma storage_lookup_put_ne name n key r st :
  n <> name -> storage_lookup n (storage_put name key r st) = storage_lookup n st.
Proof.
  intros Hne. induction st as [|[m c] st IH]; simpl; [reflexivity|].
  destruct (String.eqb_spec m name) as [->|Hm]; simpl.
  - destruct (String.eqb_spec name n); congruence.
  - destruct (m =? n); [reflexivity|apply IH].
Qed.

Lemma storage_match_app key st st' :
  storage_match key (st ++ st') =
  match storage_match key st with
  | Some r => Some r
  | None => storage_match key st'
  end.
Proof.
  induction st as [|[n c] st IH]; simpl; [reflexivity|].
  destruct (c !! key); [reflexivity|apply IH].
Qed.

Lemma storage_match_open name key st :
  storage_match key (storage_open name st) = storage_match key st.
Proof.
  unfold storage_open. destruct (storage_has name st); [reflexivity|].
  rewrite storage_match_app. destruct (storage_match key st); reflexivity.
Qed.

(** A response written under a key that no cache holds yet is the one
    [caches.match] finds afterwards. *)
Lemma storage_match_put_fresh name key r st :
  storage_match key st = None ->
  storage_has name st = true ->
  storage_match key (storage_put name key r st) = Some r.
Proof.
  unfold storage_has. induction st as [|[n c] st IH]; simpl; [discriminate|].
  destruct (c !! key) eqn:Ec; [discriminate|]. intros Hm Hh.
  destruct (n =? name); simpl.
  - now rewrite lookup_insert_eq.
  - rewrite Ec. now apply IH.
Qed.

Lemma clone_eq r : clone r = r.
Proof. now destruct r. Qed.

(** ** The fetch listener, branch by branch *)

Ltac run_js :=
  unfold fetch, caches_open, caches_match, cache_put, js_clone, promise,
    then_, catch_, settle_with, or_, bind, ret, emit, get_storage, set_storage;
  simpl.

Lemma cache_fresh_run env request r w :
  cache_fresh env request (VResponse r) w =
  (Normal (VResponse r),
   {| storage := written env request r (storage w);
      trace := trace w ++ [EvCachesOpen CACHE_NAME;
                           EvCachePut CACHE_NAME (href (url request)) (clone r)] |}).
Proof.
  unfold cache_fresh, written. run_js.
  destruct (put_accepts env request (clone r)); simpl; now rewrite <- app_assoc.
Qed.

Ltac run_fetch H :=
  unfold on_fetch;
  destruct H as [-> ->]; simpl.

Lemma on_fetch_bypass env request w :
  method request <> "GET" \/ String.prefix "/api/" (pathname (url request)) = true ->
  on_fetch env request w = (Normal None, w).
Proof.
  unfold on_fetch. intros [H|H].
  - apply String.eqb_neq in H. now rewrite H.
  - rewrite H. now destruct (method request =? "GET").
Qed.

Lemma on_fetch_navigate_ok env request r w :
  cached_by request ->
  mode request = "navigate" ->
  network env request = NetOk r ->
  on_fetch env request w =
  (Normal (Some (Fulfilled (VResponse r))),
   {| storage := written env request r (storage w);
      trace := trace w ++ [EvFetch request; EvCachesOpen CACHE_NAME;
                           EvCachePut CACHE_NAME (href (url request)) (clone r)] |}).
Proof.
  intros Hc Hn Hnet. run_fetch Hc. rewrite Hn. simpl.
  unfold fetch, bind, emit, ret. rewrite Hnet.
  unfold then_, settle_with. rewrite cache_fresh_run. simpl.
  now rewrite <- app_assoc.
Qed.

Lemma on_fetch_navigate_fail env request w :
  cached_by request ->
  mode request = "navigate" ->
  network env request = NetFail ->
  on_fetch env request w =
  match storage_match (href (url request)) (storage w) with
  | Some c =>
      (Normal (Some (Fulfilled (VResponse c))),
       {| storage := storage w;
          trace := trace w ++ [EvFetch request; EvCachesMatch (href (url request))] |})
  | None =>
      (Normal (Some (match storage_match (offline_key env) (storage w) with
                     | Some d => Fulfilled (VResponse d)
                     | None => Fulfilled VUndefined
                     end)),
       {| storage := storage w;
          trace := trace w ++ [EvFetch request; EvCachesMatch (href (url request));
                               EvCachesMatch (offline_key env)] |})
  end.
Proof.
  intros Hc Hn Hnet. run_fetch Hc. rewrite Hn. simpl.
  unfold fetch, bind, emit, ret. rewrite Hnet. simpl.
  unfold settle_with, caches_match, promise, bind, emit, get_storage, ret. simpl.
  destruct (storage_match (href (url request)) (storage w)) as [c|]; simpl.
  - now rewrite <- app_assoc.
  - unfold offline_key, request_of_path. simpl. now rewrite <- !app_assoc.
Qed.

Lemma on_fetch_navigate_hang env request w :
  cached_by request ->
  mode request = "navigate" ->
  network env request = NetHang ->
  on_fetch env request w =
  (Normal (Some Pending),
   {| storage := storage w; trace := trace w ++ [EvFetch request] |}).
Proof.
  intros Hc Hn Hnet. run_fetch Hc. rewrite Hn. simpl.
  unfold fetch, bind, emit, ret. now rewrite Hnet.
Qed.

Lemma on_fetch_swr env request w :
  cached_by request ->
  mode request <> "navigate" ->
  on_fetch env request w =
  (Normal (Some (match storage_match (href (url request)) (storage w) with
                 | Some c => Fulfilled (VResponse c)
                 | None =>
                     match network env request with
                     | NetOk r => Fulfilled (VResponse r)
                     | NetFail => Fulfilled VNull
                     | NetHang => Pending
                     end
                 end)),
   revalidated env request w).
Proof.
  intros Hc Hn. run_fetch Hc. apply String.eqb_neq in Hn. rewrite Hn.
  unfold revalidated, caches_match, fetch, bind, emit, get_storage, ret. simpl.
  destruct (storage_match (href (url request)) (storage w)) as [c|];
    destruct (network env request) as [r| |]; simpl;
    unfold settle_with; simpl; rewrite ?cache_fresh_run; simpl;
    rewrite <- ?app_assoc; reflexivity.
Qed.

(** ** The claims on the fetch listener *)

(** C4: a request whose method is not GET, or whose path starts with
    [/api/], makes the listener return without calling
    [event.respondWith] and without a single platform call: the world,
    storage and trace, is the one it started from, and the browser handles
    the request itself. *)
Theorem fetch_bypass_untouched env request w :
  method request <> "GET" \/ String.prefix "/api/" (pathname (url request)) = true ->
  on_fetch env request w = (Normal None, w) /\
  delivery (fst (on_fetch env request w)) = PassThrough.
Proof.
  intros H. now rewrite (on_fetch_bypass env request w H).
Qed.

Lemma fetch_bypass_untouched_witness :
  (method post_request <> "GET" /\
   on_fetch offline_env post_request shell_world = (Normal None, shell_world)) /\
  (String.prefix "/api/" (pathname (url api_request)) = true /\
   on_fetch (online_env fresh_page) api_request shell_world = (Normal None, shell_world)).
Proof.
  split; split.
  - discriminate.
  - apply (fetch_bypass_untouched offline_env post_request shell_world).
    left. discriminate.
  - reflexivity.
  - apply (fetch_bypass_untouched (online_env fresh_page) api_request shell_world).
    right. reflexivity.
Defined.

(** C3: a navigation request whose network fetch fails is answered with
    the response stored for that request when there is one, else with the
    stored offline document, and is a network error when neither is
    stored. *)
Theorem navigate_offline_fallback env request w :
  cached_by request ->
  mode request = "navigate" ->
  network env request = NetFail ->
  delivery (fst (on_fetch env request w)) =
  match storage_match (href (url request)) (storage w) with
  | Some c => Served c
  | None =>
      match storage_match (offline_key env) (storage w) with
      | Some d => Served d
      | None => NetworkError
      end
  end.
Proof.
  intros Hc Hn Hnet. rewrite (on_fetch_navigate_fail _ _ _ Hc Hn Hnet).
  destruct (storage_match (href (url request)) (storage w)); [reflexivity|].
  simpl. now destruct (storage_match (offline_key env) (storage w)).
Qed.

Lemma navigate_offline_fallback_witness :
  (cached_by page_request /\ mode page_request = "navigate" /\
   network offline_env page_request = NetFail) /\
  delivery (fst (on_fetch offline_env page_request shell_world)) = Served offline_doc.
Proof.
  split.
  - repeat split; reflexivity.
  - rewrite (navigate_offline_fallback offline_env page_request shell_world).
    + reflexivity.
    + split; reflexivity.
    + reflexivity.
    + reflexivity.
Defined.

Lemma cached_in_current_put key r st tr :
  cached_in_current
    {| storage := storage_put CACHE_NAME key r (storage_open CACHE_NAME st);
       trace := tr |} key = Some r.
Proof.
  unfold cached_in_current, current_cache. simpl.
  rewrite storage_lookup_put, storage_lookup_open. apply lookup_insert_eq.
Qed.

Lemma events_since_trace w w' t :
  trace w' = (trace w ++ t)%list -> events_since w w' = t.
Proof.
  intros H. unfold events_since. rewrite H, skipn_app, skipn_all, Nat.sub_diag.
  reflexivity.
Qed.

Lemma events_since_app w t st :
  events_since w {| storage := st; trace := trace w ++ t |} = t.
Proof.
  unfold events_since. simpl. rewrite skipn_app, skipn_all, Nat.sub_diag. reflexivity.
Qed.

Lemma put_accepts_clone env request r :
  put_accepts env request (clone r) = put_accepts env request r.
Proof. now rewrite clone_eq. Qed.

Lemma cached_in_current_open st tr tr' key :
  cached_in_current {| storage := storage_open CACHE_NAME st; trace := tr |} key =
  cached_in_current {| storage := st; trace := tr' |} key.
Proof.
  unfold cached_in_current, current_cache. cbn [storage].
  rewrite storage_lookup_open.
  destruct (storage_lookup CACHE_NAME st); [reflexivity|apply lookup_empty].
Qed.

Lemma cached_in_current_written env request r w tr :
  cached_in_current {| storage := written env request r (storage w); trace := tr |}
    (href (url request)) =
  if put_accepts env request r then Some (clone r)
  else cached_in_current w (href (url request)).
Proof.
  unfold written. rewrite put_accepts_clone.
  destruct (put_accepts env request r); [apply cached_in_current_put|].
  destruct w. apply cached_in_current_open.
Qed.

(** C6, amended: a navigation request whose network fetch succeeds is
    answered with the network response, and a clone of it, a response with
    the same status and the same bytes, is handed to [cache.put] for the
    cache of the current generation under the request's URL.  The clone is
    the entry afterwards when the write is accepted; a write the cache
    rejects (a 206 response, a URL that is not http(s), a refusal of the
    environment) leaves the entry as it was. *)
Theorem navigate_network_first env request r w :
  cached_by request ->
  mode request = "navigate" ->
  network env request = NetOk r ->
  delivery (fst (on_fetch env request w)) = Served r /\
  In (EvCachePut CACHE_NAME (href (url request)) (clone r))
     (events_since w (snd (on_fetch env request w))) /\
  status (clone r) = status r /\ body (clone r) = body r /\
  cached_in_current (snd (on_fetch env request w)) (href (url request)) =
    (if put_accepts env request r then Some (clone r)
     else cached_in_current w (href (url request))).
Proof.
  intros Hc Hn Hnet. rewrite (on_fetch_navigate_ok _ _ _ _ Hc Hn Hnet). cbn [fst snd].
  split; [reflexivity|]. split.
  - rewrite events_since_app. simpl. tauto.
  - split; [reflexivity|]. split; [reflexivity|]. apply cached_in_current_written.
Qed.

Lemma navigate_network_first_witness :
  (cached_by page_request /\ mode page_request = "navigate" /\
   network (online_env fresh_page) page_request = NetOk fresh_page) /\
  put_accepts (online_env fresh_page) page_request fresh_page = true /\
  delivery (fst (on_fetch (online_env fresh_page) page_request shell_world)) =
    Served fresh_page /\
  cached_in_current (snd (on_fetch (online_env fresh_page) page_request shell_world))
    "https://spackler.example/courses?sort=rank" = Some fresh_page.
Proof.
  split; [repeat split; reflexivity|]. split; [reflexivity|].
  destruct (navigate_network_first (online_env fresh_page) page_request fresh_page
              shell_world) as (Hd & _ & _ & _ & Hs).
  - split; reflexivity.
  - reflexivity.
  - reflexivity.
  - split; [exact Hd|exact Hs].
Defined.

(** C6 as first stated fails: a navigation answered with status 206 is
    delivered, and no copy of it is in the cache afterwards. *)
Lemma navigate_network_first_counterexample :
  cached_by page_request /\ mode page_request = "navigate" /\
  network (online_env partial_content) page_request = NetOk partial_content /\
  delivery (fst (on_fetch (online_env partial_content) page_request shell_world)) =
    Served partial_content /\
  cached_in_current (snd (on_fetch (online_env partial_content) page_request shell_world))
    (href (url page_request)) = None /\
  cached_in_current (snd (on_fetch (online_env partial_content) page_request shell_world))
    (href (url page_request)) <> Some (clone partial_content).
Proof. repeat split; try reflexivity. discriminate. Qed.

Lemma cached_in_current_revalidated env request r w :
  network env request = NetOk r ->
  cached_in_current (revalidated env request w) (href (url request)) =
  if put_accepts env request r then Some (clone r)
  else cached_in_current w (href (url request)).
Proof.
  intros Hnet. unfold revalidated. rewrite Hnet. apply cached_in_current_written.
Qed.

(** C7, amended: a GET request that is not a navigation and has a cached
    value is answered with that value whatever the network does, the
    environment being arbitrary: the fetch may succeed, fail or never
    settle.  When the fetch succeeds and the cache accepts the write, the
    entry of the request in the cache of the current generation is
    afterwards the fresh response; a fresh response the cache rejects (a
    206, say) leaves the entry as it was. *)
Theorem swr_serves_cached env request c w :
  cached_by request ->
  mode request <> "navigate" ->
  storage_match (href (url request)) (storage w) = Some c ->
  delivery (fst (on_fetch env request w)) = Served c /\
  (forall r, network env request = NetOk r ->
     cached_in_current (snd (on_fetch env request w)) (href (url request)) =
     if put_accepts env request r then Some r
     else cached_in_current w (href (url request))).
Proof.
  intros Hc Hn Hm. rewrite (on_fetch_swr _ _ _ Hc Hn), Hm. simpl.
  split; [reflexivity|]. intros r Hnet.
  rewrite (cached_in_current_revalidated _ _ _ _ Hnet). now rewrite clone_eq.
Qed.

Lemma swr_serves_cached_witness :
  (cached_by script_request /\ mode script_request <> "navigate" /\
   storage_match (href (url script_request)) (storage warm_world) = Some old_script) /\
  delivery (fst (on_fetch hanging_env script_request warm_world)) = Served old_script /\
  delivery (fst (on_fetch (online_env new_script) script_request warm_world)) =
    Served old_script /\
  cached_in_current (snd (on_fetch (online_env new_script) script_request warm_world))
    "https://spackler.example/static/app.js" = Some new_script.
Proof.
  assert (Hc : cached_by script_request) by (split; reflexivity).
  assert (Hn : mode script_request <> "navigate") by discriminate.
  assert (Hm : storage_match (href (url script_request)) (storage warm_world)
               = Some old_script) by reflexivity.
  split; [auto|]. split; [|split].
  - apply (swr_serves_cached hanging_env script_request old_script warm_world Hc Hn Hm).
  - apply (swr_serves_cached (online_env new_script) script_request old_script
             warm_world Hc Hn Hm).
  - destruct (swr_serves_cached (online_env new_script) script_request old_script
                warm_world Hc Hn Hm) as [_ Hs].
    exact (Hs new_script eq_refl).
Defined.

(** C7 as first stated fails: the background fetch resolves with status
    206, and the entry of the request is still the old response. *)
Lemma swr_serves_cached_counterexample :
  cached_by script_request /\ mode script_request <> "navigate" /\
  storage_match (href (url script_request)) (storage warm_world) = Some old_script /\
  network (online_env partial_content) script_request = NetOk partial_content /\
  cached_in_current (snd (on_fetch (online_env partial_content) script_request warm_world))
    (href (url script_request)) = Some old_script /\
  cached_in_current (snd (on_fetch (online_env partial_content) script_request warm_world))
    (href (url script_request)) <> Some partial_content.
Proof. repeat split; try reflexivity; discriminate. Qed.

(** C1, as the code has it: a GET request that is not a navigation, has
    no cached value and whose network fetch fails is answered with a
    network error, whether or not the offline document is stored.  The
    promise [fetchPromise] is an object, hence truthy, so
    [cached || fetchPromise || caches.match('/static/offline.html')] never
    reaches its last operand, and [fetchPromise] fulfils with [null]. *)
Theorem swr_miss_network_failure env request w :
  cached_by request ->
  mode request <> "navigate" ->
  storage_match (href (url request)) (storage w) = None ->
  network env request = NetFail ->
  delivery (fst (on_fetch env request w)) = NetworkError /\
  snd (on_fetch env request w) =
    {| storage := storage w;
       trace := trace w ++ [EvCachesMatch (href (url request)); EvFetch request] |}.
Proof.
  intros Hc Hn Hm Hnet. rewrite (on_fetch_swr _ _ _ Hc Hn), Hm, Hnet. simpl.
  split; [reflexivity|]. unfold revalidated. now rewrite Hnet.
Qed.

Lemma swr_miss_network_failure_witness :
  (cached_by script_request /\ mode script_request <> "navigate" /\
   storage_match (href (url script_request)) (storage shell_world) = None /\
   network offline_env script_request = NetFail) /\
  storage_match (offline_key offline_env) (storage shell_world) = Some offline_doc /\
  delivery (fst (on_fetch offline_env script_request shell_world)) = NetworkError.
Proof.
  assert (Hc : cached_by script_request) by (split; reflexivity).
  assert (Hn : mode script_request <> "navigate") by discriminate.
  split; [repeat split; auto|]. split; [reflexivity|].
  apply (swr_miss_network_failure offline_env script_request shell_world Hc Hn);
    reflexivity.
Defined.




(** ** Frame of the fetch and message listeners *)

(** The fetch listener writes to the cache of the current generation
    only, and deletes no cache. *)
Lemma on_fetch_other_caches env request w n :
  n <> CACHE_NAME ->
  storage_lookup n (storage (snd (on_fetch env request w))) = storage_lookup n (storage w).
Proof.
  intros Hne.
  assert (Hput : forall r,
    storage_lookup n (written env request r (storage w)) = storage_lookup n (storage w)).
  { intros r. unfold written. destruct (put_accepts env request (clone r)).
    - rewrite storage_lookup_put_ne by exact Hne. now apply storage_lookup_open_ne.
    - now apply storage_lookup_open_ne. }
  destruct (String.eqb_spec (method request) "GET") as [Hm|Hm].
  2: { now rewrite (on_fetch_bypass env request w (or_introl Hm)). }
  destruct (String.prefix "/api/" (pathname (url request))) eqn:Hp.
  { now rewrite (on_fetch_bypass env request w (or_intror Hp)). }
  assert (Hc : cached_by request) by now split.
  destruct (String.eqb_spec (mode request) "navigate") as [Hn|Hn].
  - destruct (network env request) as [r| |] eqn:Hnet.
    + rewrite (on_fetch_navigate_ok _ _ _ _ Hc Hn Hnet). apply Hput.
    + rewrite (on_fetch_navigate_fail _ _ _ Hc Hn Hnet).
      now destruct (storage_match (href (url request)) (storage w)).
    + now rewrite (on_fetch_navigate_hang _ _ _ Hc Hn Hnet).
  - rewrite (on_fetch_swr _ _ _ Hc Hn). unfold revalidated. cbn [snd].
    destruct (network env request); [apply Hput| |]; reflexivity.
Qed.

(** The message listener calls [skipWaiting] for the string
    ['skipWaiting'] and does nothing for any other message. *)
Lemma on_message_run data w :
  on_message data w =
  (Normal tt,
   match data with
   | VString s =>
       if s =? "skipWaiting"
       then {| storage := storage w; trace := trace w ++ [EvSkipWaiting] |}
       else w
   | _ => w
   end).
Proof.
  destruct data as [| | |s| | | |]; try reflexivity. unfold on_message.
  now destruct (s =? "skipWaiting").
Qed.

(** ** The activate listener *)

Lemma storage_remove_absent name st :
  storage_has name st = false -> storage_remove name st = st.
Proof.
  unfold storage_has. induction st as [|[n c] st IH]; simpl; [reflexivity|].
  destruct (n =? name); [discriminate|]. intros H. now rewrite IH.
Qed.

Lemma caches_delete_run env name w :
  caches_delete env name w =
  (Normal (if delete_rejects env name then Rejected "Error: cache deletion failed"
           else Fulfilled (VBool (storage_has name (storage w)))),
   {| storage := if delete_rejects env name then storage w
                 else storage_remove name (storage w);
      trace := trace w ++ [EvCachesDelete name] |}).
Proof.
  unfold caches_delete, bind, emit, get_storage, set_storage, ret. simpl.
  destruct (delete_rejects env name); [reflexivity|]. cbn.
  destruct (storage_has name (storage w)) eqn:E; cbn; [reflexivity|].
  now rewrite storage_remove_absent.
Qed.

Lemma delete_if_stale_run env name w :
  exists v,
    delete_if_stale env (VString name) w =
    (Normal v,
     {| storage := if stale name && negb (delete_rejects env name)
                   then storage_remove name (storage w) else storage w;
        trace := trace w ++ (if stale name then [EvCachesDelete name] else []) |}) /\
    is_pending v = false /\
    is_rejected v = if stale name && delete_rejects env name
                    then Some "Error: cache deletion failed" else None.
Proof.
  unfold delete_if_stale.
  change (negb (name =? CACHE_NAME) && String.prefix "spackler-" name) with (stale name).
  destruct (stale name); simpl.
  - unfold promise, bind. rewrite caches_delete_run.
    destruct (delete_rejects env name); simpl; eexists; (split; [reflexivity|]); auto.
  - exists VUndefined. unfold ret. rewrite app_nil_r. destruct w; auto.
Qed.

Lemma map_values_delete env names : forall w,
  exists vs,
    map_values (delete_if_stale env) (map VString names) w =
    (Normal vs,
     {| storage := sweep env names (storage w);
        trace := trace w ++ map EvCachesDelete (List.filter stale names) |}) /\
    existsb is_pending vs = false /\
    first_rejection vs = if deletion_fails env names
                         then Some "Error: cache deletion failed" else None.
Proof.
  induction names as [|n names IH]; intros w; cbn [map map_values].
  - exists []. simpl. unfold ret. rewrite app_nil_r. destruct w; auto.
  - destruct (delete_if_stale_run env n w) as (v & Ev & Hp & Hr).
    unfold bind at 1. rewrite Ev.
    match goal with |- context [bind _ _ ?w1] =>
      destruct (IH w1) as (vs & Evs & Hps & Hrs) end.
    unfold bind at 1. rewrite Evs. exists (v :: vs). simpl.
    rewrite Hp, Hps, Hr, Hrs. unfold ret. split; [|split; [reflexivity|]].
    + f_equal. f_equal. rewrite <- app_assoc. f_equal.
      simpl. now destruct (stale n).
    + unfold deletion_fails. simpl.
      now destruct (stale n && delete_rejects env n).
Qed.

Lemma on_activate_run env w :
  on_activate env w =
  if deletion_fails env (storage_names (storage w)) then
    (Normal (Rejected "Error: cache deletion failed"),
     {| storage := sweep env (storage_names (storage w)) (storage w);
        trace := trace w ++ EvCachesKeys ::
                 map EvCachesDelete (List.filter stale (storage_names (storage w))) |})
  else
    (Normal (Fulfilled VUndefined),
     {| storage := sweep env (storage_names (storage w)) (storage w);
        trace := trace w ++ EvCachesKeys ::
                 map EvCachesDelete (List.filter stale (storage_names (storage w)))
                 ++ [EvClientsClaim] |}).
Proof.
  unfold on_activate, caches_keys.
  unfold bind at 1. unfold bind at 1. unfold emit at 1. cbn [fst snd].
  unfold bind at 1. unfold get_storage at 1, ret at 1. cbn [storage].
  unfold bind at 1. unfold then_, settle_with, js_map.
  unfold bind at 1. unfold bind at 1.
  match goal with |- context [map_values _ _ ?w1] =>
    destruct (map_values_delete env (storage_names (storage w)) w1)
      as (vs & E & Hp & Hr) end.
  rewrite E. unfold ret at 1. unfold promise, promise_all, bind, ret.
  rewrite Hr, Hp. cbn [storage trace].
  destruct (deletion_fails env (storage_names (storage w))); cbn.
  - now rewrite <- app_assoc.
  - unfold clients_claim, bind, emit, ret. cbn.
    rewrite <- !app_assoc. reflexivity.
Qed.

Lemma storage_remove_skip name c rest : forall pre,
  Forall (fun x => fst x <> name) pre ->
  storage_remove name (pre ++ (name, c) :: rest) = (pre ++ rest)%list.
Proof.
  induction pre as [|[m d] pre IH]; intros H; simpl.
  - now rewrite String.eqb_refl.
  - inversion H as [|? ? Hm Hpre]; subst. simpl in Hm.
    apply String.eqb_neq in Hm. rewrite Hm. now rewrite IH.
Qed.

Lemma sweep_app env st : forall pre,
  Forall (fun x => kept env (fst x) = true) pre ->
  sweep env (storage_names st) (pre ++ st) =
  (pre ++ List.filter (fun x => kept env (fst x)) st)%list.
Proof.
  induction st as [|[n c] st IH]; intros pre Hpre; simpl; [reflexivity|].
  destruct (kept env n) eqn:K; pose proof K as E; unfold kept in E.
  - apply negb_true_iff in E. rewrite E.
    change (pre ++ (n, c) :: st)%list with (pre ++ [(n, c)] ++ st)%list.
    rewrite app_assoc, IH.
    + now rewrite <- app_assoc.
    + apply Forall_app. split; [exact Hpre|]. now repeat constructor.
  - apply negb_false_iff in E. rewrite E.
    rewrite storage_remove_skip; [now apply IH|].
    eapply Forall_impl; [exact Hpre|]. intros [m d] Hk Heq. simpl in *. congruence.
Qed.

(** What [activate] leaves of the storage: the caches that are not stale,
    and the stale ones whose deletion was rejected. *)
Lemma sweep_filter env st :
  sweep env (storage_names st) st = List.filter (fun x => kept env (fst x)) st.
Proof. apply (sweep_app env st []). constructor. Qed.

Lemma storage_names_filter (f : string -> bool) st :
  storage_names (List.filter (fun x => f (fst x)) st) = List.filter f (storage_names st).
Proof.
  induction st as [|[n c] st IH]; simpl; [reflexivity|].
  destruct (f n); simpl; now rewrite IH.
Qed.

Lemma storage_lookup_filter (f : string -> bool) name st :
  f name = true ->
  storage_lookup name (List.filter (fun x => f (fst x)) st) = storage_lookup name st.
Proof.
  intros Hf. induction st as [|[n c] st IH]; simpl; [reflexivity|].
  destruct (String.eqb_spec n name) as [->|Hne].
  - rewrite Hf. simpl. now rewrite String.eqb_refl.
  - destruct (f n); simpl; [|exact IH].
    apply String.eqb_neq in Hne. now rewrite Hne.
Qed.

Lemma storage_has_In name st :
  storage_has name st = true <-> In name (storage_names st).
Proof.
  unfold storage_has. induction st as [|[n c] st IH]; simpl.
  - split; [discriminate|tauto].
  - destruct (String.eqb_spec n name) as [->|Hne]; [tauto|].
    rewrite IH. split; [tauto|]. intros [H|H]; [congruence|exact H].
Qed.

Lemma filter_eqb_absent (x : string) l :
  ~ In x l -> List.filter (fun n => n =? x) l = [].
Proof.
  induction l as [|y l IH]; simpl; [reflexivity|]. intros H.
  destruct (String.eqb_spec y x) as [->|Hne]; [tauto|]. apply IH. tauto.
Qed.

Lemma filter_eqb_NoDup (x : string) l :
  NoDup l -> In x l -> List.filter (fun n => n =? x) l = [x].
Proof.
  induction 1 as [|y l Hy Hl IH]; simpl; [tauto|].
  destruct (String.eqb_spec y x) as [->|Hne].
  - intros _. f_equal. apply filter_eqb_absent. now rewrite <- list_elem_of_In.
  - intros [H|H]; [congruence|auto].
Qed.

Lemma filter_filter_andb {A} (f g : A -> bool) l :
  List.filter f (List.filter g l) = List.filter (fun x => g x && f x) l.
Proof.
  induction l as [|x l IH]; simpl; [reflexivity|].
  destruct (g x); simpl; [destruct (f x)|]; now rewrite IH.
Qed.

Lemma filter_Permutation {A} (f : A -> bool) l l' :
  Permutation l l' -> Permutation (List.filter f l) (List.filter f l').
Proof.
  induction 1 as [|x l l' _ IH|x y l|l l' l'' _ IH1 _ IH2]; simpl.
  - constructor.
  - destruct (f x); [now constructor|exact IH].
  - destruct (f x), (f y); try reflexivity. apply perm_swap.
  - now transitivity (List.filter f l').
Qed.

Lemma deletions_of_app t t' :
  deletions_of (t ++ t') = (deletions_of t ++ deletions_of t')%list.
Proof. apply flat_map_app. Qed.

Lemma deletions_of_deletes names : deletions_of (map EvCachesDelete names) = names.
Proof. induction names as [|n names IH]; simpl; [reflexivity|now rewrite IH]. Qed.

(** The deletions one run of [activate] issues: one for each stale cache,
    in the order of the storage. *)
Lemma activate_deletions env w :
  deletions_of (events_since w (snd (on_activate env w))) =
  List.filter stale (storage_names (storage w)).
Proof.
  rewrite on_activate_run.
  destruct (deletion_fails env (storage_names (storage w))); cbn [snd];
    rewrite events_since_app; cbn [deletions_of flat_map];
    change (flat_map _ ?t) with (deletions_of t);
    rewrite ?deletions_of_app, deletions_of_deletes; [reflexivity|].
  simpl. apply app_nil_r.
Qed.

Lemma activate_storage env w :
  storage (snd (on_activate env w)) =
  List.filter (fun x => kept env (fst x)) (storage w).
Proof.
  rewrite on_activate_run.
  destruct (deletion_fails env (storage_names (storage w))); cbn [snd storage];
    apply sweep_filter.
Qed.

(** ** The claims on the activate listener *)

(** C2: when [activate] runs on a storage that holds the cache of the
    current generation (install opened it) and its promise fulfils, the
    names with the prefix [spackler-] that remain are exactly one, the
    current generation's; every other cache with that prefix is gone, and
    the current cache is as it was. *)
Theorem activate_leaves_current_only env w :
  storage_wf (storage w) ->
  storage_has CACHE_NAME (storage w) = true ->
  fst (on_activate env w) = Normal (Fulfilled VUndefined) ->
  List.filter has_prefix (storage_names (storage (snd (on_activate env w)))) = [CACHE_NAME] /\
  (forall n, has_prefix n = true -> n <> CACHE_NAME ->
     ~ In n (storage_names (storage (snd (on_activate env w))))) /\
  current_cache (snd (on_activate env w)) = current_cache w.
Proof.
  intros Hwf Hhas Hok.
  assert (Hnf : deletion_fails env (storage_names (storage w)) = false).
  { rewrite on_activate_run in Hok.
    destruct (deletion_fails env (storage_names (storage w))); [discriminate|reflexivity]. }
  rewrite activate_storage, storage_names_filter.
  assert (Hk : forall n, In n (storage_names (storage w)) -> kept env n = negb (stale n)).
  { intros n Hn. unfold kept. destruct (stale n) eqn:Hs; [|reflexivity]. simpl.
    unfold deletion_fails in Hnf.
    destruct (delete_rejects env n) eqn:Hr; [|reflexivity].
    exfalso. apply not_true_iff_false in Hnf. apply Hnf.
    apply existsb_exists. exists n. now rewrite Hs, Hr. }
  split; [|split].
  - rewrite <- (filter_eqb_NoDup CACHE_NAME (storage_names (storage w)) Hwf)
      by now apply storage_has_In.
    rewrite filter_filter_andb. apply List.filter_ext_in. intros n Hn.
    rewrite (Hk n Hn). unfold stale.
    destruct (String.eqb_spec n CACHE_NAME) as [->|Hne]; simpl; [reflexivity|].
    now destruct (has_prefix n).
  - intros n Hp Hne Hin. apply List.filter_In in Hin. destruct Hin as [Hin Hkn].
    rewrite (Hk n Hin) in Hkn. unfold stale in Hkn.
    rewrite Hp in Hkn. apply String.eqb_neq in Hne. now rewrite Hne in Hkn.
  - unfold current_cache. rewrite activate_storage.
    now apply (storage_lookup_filter (kept env)).
Qed.

Lemma activate_leaves_current_only_witness :
  (storage_wf (storage crowded_world) /\
   storage_has CACHE_NAME (storage crowded_world) = true /\
   fst (on_activate offline_env crowded_world) = Normal (Fulfilled VUndefined)) /\
  storage_names (storage (snd (on_activate offline_env crowded_world))) =
    ["fonts"; "spackler-v3"] /\
  List.filter has_prefix
    (storage_names (storage (snd (on_activate offline_env crowded_world)))) =
    ["spackler-v3"].
Proof.
  assert (Hwf : storage_wf (storage crowded_world)).
  { unfold storage_wf. simpl. repeat constructor; rewrite list_elem_of_In; simpl;
      intuition discriminate. }
  split; [repeat split; exact Hwf|]. split; [reflexivity|].
  apply (activate_leaves_current_only offline_env crowded_world Hwf);
    reflexivity.
Defined.

(** C8: [activate] issues one deletion for each stale cache, that is each
    cache with the prefix and a name that is not the current one, whatever
    the deletions do: those that go through remove their cache, a rejected
    one leaves its own cache only.  Reordering the storage reorders the
    deletions and the caches that remain, and changes neither. *)
Theorem activate_deletions_independent env w :
  deletions_of (events_since w (snd (on_activate env w))) =
    List.filter stale (storage_names (storage w)) /\
  (forall n, In n (storage_names (storage w)) -> stale n = true ->
     In (EvCachesDelete n) (trace (snd (on_activate env w)))) /\
  (forall n, stale n = true -> delete_rejects env n = false ->
     ~ In n (storage_names (storage (snd (on_activate env w))))) /\
  (forall w2, Permutation (storage w) (storage w2) ->
     Permutation (deletions_of (events_since w (snd (on_activate env w))))
                 (deletions_of (events_since w2 (snd (on_activate env w2)))) /\
     Permutation (storage (snd (on_activate env w)))
                 (storage (snd (on_activate env w2)))).
Proof.
  split; [apply activate_deletions|]. split; [|split].
  - intros n Hn Hs.
    assert (Hd : In n (deletions_of (events_since w (snd (on_activate env w))))).
    { rewrite activate_deletions. apply List.filter_In. now split. }
    unfold deletions_of in Hd. apply in_flat_map in Hd.
    destruct Hd as (e & He & Hne). unfold events_since in He.
    assert (He' : In e (trace (snd (on_activate env w)))).
    { rewrite <- (firstn_skipn (length (trace w))). apply in_or_app. now right. }
    destruct e; simpl in Hne; try tauto. destruct Hne as [->|[]]. exact He'.
  - intros n Hs Hr Hin. rewrite activate_storage, storage_names_filter in Hin.
    apply List.filter_In in Hin. destruct Hin as [_ Hk].
    unfold kept in Hk. now rewrite Hs, Hr in Hk.
  - intros w2 Hperm. rewrite !activate_deletions, !activate_storage.
    split.
    + apply filter_Permutation. unfold storage_names. now apply Permutation_map.
    + now apply filter_Permutation.
Qed.

(** C9: [activate] leaves every cache without the prefix [spackler-] as
    it found it, and issues no deletion for it: a name it deletes is in the
    storage, differs from the current generation's and carries the
    prefix. *)
Theorem activate_spares_other_caches env w n :
  has_prefix n = false ->
  storage_lookup n (storage (snd (on_activate env w))) = storage_lookup n (storage w) /\
  ~ In n (deletions_of (events_since w (snd (on_activate env w)))) /\
  (forall m, In m (deletions_of (events_since w (snd (on_activate env w)))) ->
     In m (storage_names (storage w)) /\ m <> CACHE_NAME /\ has_prefix m = true) /\
  List.filter (fun x => negb (has_prefix (fst x))) (storage (snd (on_activate env w))) =
    List.filter (fun x => negb (has_prefix (fst x))) (storage w).
Proof.
  intros Hp.
  assert (Hst : forall m, stale m = true -> m <> CACHE_NAME /\ has_prefix m = true).
  { intros m Hm. unfold stale in Hm. apply andb_true_iff in Hm. destruct Hm as [H1 H2].
    split; [|exact H2]. apply String.eqb_neq. now apply negb_true_iff. }
  assert (Hkept : forall m, has_prefix m = false -> kept env m = true).
  { intros m Hm. unfold kept, stale. rewrite Hm.
    now rewrite andb_false_r. }
  rewrite activate_deletions, activate_storage.
  split; [|split; [|split]].
  - apply (storage_lookup_filter (kept env)). now apply Hkept.
  - intros Hin. apply List.filter_In in Hin. destruct Hin as [_ Hs].
    apply Hst in Hs. destruct Hs as [_ Hs]. congruence.
  - intros m Hin. apply List.filter_In in Hin. destruct Hin as [Hin Hs].
    split; [exact Hin|]. now apply Hst.
  - rewrite filter_filter_andb. apply List.filter_ext. intros [m c]. simpl.
    destruct (has_prefix m) eqn:Hm; simpl; [apply andb_false_r|].
    now rewrite (Hkept m Hm).
Qed.

Lemma activate_spares_other_caches_witness :
  has_prefix "fonts" = false /\
  storage_lookup "fonts" (storage (snd (on_activate stubborn_env crowded_world))) =
    Some {[ "https://fonts.example/inter.woff2" := font ]} /\
  deletions_of (events_since crowded_world (snd (on_activate stubborn_env crowded_world)))
    = ["spackler-v1"; "spackler-v2"].
Proof.
  split; [reflexivity|]. split; [|reflexivity].
  destruct (activate_spares_other_caches stubborn_env crowded_world "fonts" eq_refl)
    as [H _].
  rewrite H. reflexivity.
Defined.

(** The run of C8 and C9 on the sample storage: the deletion of
    [spackler-v1] is rejected, that of [spackler-v2] is issued and goes
    through all the same, and [clients.claim] is not reached. *)
Example activate_stubborn_run :
  on_activate stubborn_env crowded_world =
  (Normal (Rejected "Error: cache deletion failed"),
   {| storage := [("spackler-v1", {[ (site ++ "/") := old_script ]});
                  ("fonts", {[ "https://fonts.example/inter.woff2" := font ]});
                  ("spackler-v3", {[ (site ++ "/static/offline.html") := offline_doc ]})];
      trace := [EvCachesKeys; EvCachesDelete "spackler-v1";
                EvCachesDelete "spackler-v2"] |}).
Proof. reflexivity. Qed.

(** ** The install listener *)

Lemma fetch_all_run env reqs : forall w,
  forallb (fun q => http_scheme (url q)) reqs = true ->
  fetch_all env reqs w =
  (Normal (Some (map (network env) reqs)),
   {| storage := storage w; trace := trace w ++ map EvFetch reqs |}).
Proof.
  induction reqs as [|q reqs IH]; intros w Hs; cbn [fetch_all map].
  - unfold ret. rewrite app_nil_r. now destruct w.
  - cbn [forallb] in Hs. apply andb_true_iff in Hs. destruct Hs as [Hq Hs].
    rewrite Hq. unfold bind at 1. unfold emit at 1. unfold bind at 1.
    rewrite IH by exact Hs. unfold ret. cbn. now rewrite <- app_assoc.
Qed.

Lemma manifest_http env :
  forallb (fun q => http_scheme (url q)) (manifest_requests env) = http_origin env.
Proof.
  unfold manifest_requests, urlsToCache. cbn [map forallb].
  change (http_scheme (url (request_of_path env ?p))) with (http_origin env).
  now destruct (http_origin env).
Qed.

Lemma fetch_all_manifest_rejected env w :
  http_origin env = false ->
  fetch_all env (manifest_requests env) w = (Normal None, w).
Proof.
  intros H. unfold manifest_requests, urlsToCache. cbn [map fetch_all].
  change (http_scheme (url (request_of_path env "/"))) with (http_origin env).
  now rewrite H.
Qed.

Lemma on_install_run env w :
  on_install env w =
  let reqs := manifest_requests env in
  let os := map (network env) reqs in
  let opened := storage_open CACHE_NAME (storage w) in
  let called := (trace w ++ [EvCachesOpen CACHE_NAME;
                 EvCacheAddAll CACHE_NAME (map (fun q => href (url q)) reqs)])%list in
  let issued := (trace w ++ EvCachesOpen CACHE_NAME ::
                 EvCacheAddAll CACHE_NAME (map (fun q => href (url q)) reqs) ::
                 map EvFetch reqs)%list in
  if negb (http_origin env) then
    (Normal (Rejected "TypeError: Request scheme is unsupported"),
     {| storage := opened; trace := called |})
  else if existsb (outcome_bad env) os then
    (Normal (Rejected "TypeError: Request failed"),
     {| storage := opened; trace := issued |})
  else if existsb outcome_hangs os then
    (Normal Pending, {| storage := opened; trace := issued |})
  else
    (Normal (Fulfilled VUndefined),
     {| storage := put_all CACHE_NAME reqs os opened;
        trace := issued ++ [EvSkipWaiting] |}).
Proof.
  unfold on_install, caches_open.
  unfold bind at 1. unfold bind at 1. unfold emit at 1.
  unfold bind at 1. unfold get_storage at 1. unfold bind at 1.
  unfold set_storage at 1. unfold ret at 1. cbn [storage trace].
  unfold bind at 1. unfold then_ at 1. unfold settle_with, promise, cache_addAll.
  fold (manifest_requests env).
  unfold bind at 1. unfold bind at 1. unfold bind at 1. unfold emit at 1.
  unfold bind at 1. cbv zeta.
  destruct (http_origin env) eqn:Ho; cbn [negb].
  2: { rewrite (fetch_all_manifest_rejected env _ Ho). unfold ret. cbn.
       now rewrite <- !app_assoc. }
  rewrite fetch_all_run by now rewrite manifest_http. cbn [storage trace].
  destruct (existsb (outcome_bad env) (map (network env) (manifest_requests env))).
  { unfold ret. cbn. now rewrite <- !app_assoc. }
  destruct (existsb outcome_hangs (map (network env) (manifest_requests env))).
  { unfold ret. cbn. now rewrite <- !app_assoc. }
  unfold bind, get_storage, set_storage, ret, skipWaiting, emit. cbn.
  now rewrite <- !app_assoc.
Qed.

Lemma storage_names_put name key r st :
  storage_names (storage_put name key r st) = storage_names st.
Proof.
  induction st as [|[n c] st IH]; simpl; [reflexivity|].
  destruct (n =? name); simpl; [reflexivity|now rewrite IH].
Qed.

Lemma storage_names_put_all name reqs : forall os st,
  storage_names (put_all name reqs os st) = storage_names st.
Proof.
  induction reqs as [|q reqs IH]; intros [|[r| |] os] st; simpl; try reflexivity.
  now rewrite IH, storage_names_put.
Qed.

Lemma storage_wf_open name st : storage_wf st -> storage_wf (storage_open name st).
Proof.
  unfold storage_wf, storage_open. intros Hwf.
  destruct (storage_has name st) eqn:E; [exact Hwf|].
  unfold storage_names. rewrite map_app. simpl.
  apply NoDup_app. split; [exact Hwf|]. split.
  - intros n Hn Hin. apply list_elem_of_In in Hn, Hin. destruct Hin as [<-|[]].
    apply (proj2 (storage_has_In _ _)) in Hn. congruence.
  - repeat constructor. now rewrite list_elem_of_In.
Qed.

(** Whatever [install] comes to, it leaves the cache of the current
    generation in a well-formed storage: what [activate] starts from. *)
Lemma install_opens_current env w :
  storage_wf (storage w) ->
  storage_wf (storage (snd (on_install env w))) /\
  storage_has CACHE_NAME (storage (snd (on_install env w))) = true.
Proof.
  intros Hwf. rewrite on_install_run. cbv zeta.
  assert (Ho := storage_wf_open CACHE_NAME _ Hwf).
  assert (Hh := storage_has_open CACHE_NAME (storage w)).
  destruct (negb (http_origin env)); [now split|].
  destruct (existsb (outcome_bad env) _); [now split|].
  destruct (existsb outcome_hangs _); [now split|].
  cbn [snd storage]. split.
  - unfold storage_wf. now rewrite storage_names_put_all.
  - apply storage_has_In. rewrite storage_names_put_all. now apply storage_has_In.
Qed.

Lemma storage_lookup_put_all_other name key reqs : forall os st,
  ~ In key (map (fun q => href (url q)) reqs) ->
  match storage_lookup name (put_all name reqs os st) with
  | Some c => c !! key
  | None => None
  end =
  match storage_lookup name st with
  | Some c => c !! key
  | None => None
  end.
Proof.
  induction reqs as [|q reqs IH]; intros [|[r| |] os] st Hk; simpl; try reflexivity.
  simpl in Hk. rewrite IH by tauto. rewrite storage_lookup_put.
  destruct (storage_lookup name st); [|reflexivity].
  apply lookup_insert_ne. tauto.
Qed.

(** After [cache.addAll] has written its batch, each request of the batch
    finds its own response. *)
Lemma storage_lookup_put_all env name reqs : forall st q r,
  NoDup (map (fun q => href (url q)) reqs) ->
  existsb (outcome_bad env) (map (network env) reqs) = false ->
  existsb outcome_hangs (map (network env) reqs) = false ->
  storage_has name st = true ->
  In q reqs ->
  network env q = NetOk r ->
  match storage_lookup name (put_all name reqs (map (network env) reqs) st) with
  | Some c => c !! href (url q)
  | None => None
  end = Some r.
Proof.
  induction reqs as [|q0 reqs IH]; intros st q r Hnd Hb Hh Hhas Hin Hq; [destruct Hin|].
  simpl in *. apply orb_false_iff in Hb, Hh. destruct Hb as [Hb0 Hb], Hh as [Hh0 Hh].
  apply NoDup_cons in Hnd. destruct Hnd as [Hk Hnd].
  rewrite list_elem_of_In in Hk.
  destruct (network env q0) as [r0| |] eqn:E0; try discriminate.
  assert (Hhas' : storage_has name (storage_put name (href (url q0)) r0 st) = true).
  { apply storage_has_In. rewrite storage_names_put. now apply storage_has_In. }
  destruct Hin as [->|Hrest].
  - rewrite storage_lookup_put_all_other by exact Hk.
    rewrite storage_lookup_put. unfold storage_has in Hhas.
    destruct (storage_lookup name st); [|discriminate].
    rewrite lookup_insert_eq. congruence.
  - now apply IH.
Qed.

Lemma append_inj_l (a b c : string) : (a ++ b = a ++ c)%string -> b = c.
Proof. induction a as [|x a IH]; simpl; [auto|]. intros H. injection H. exact IH. Qed.

Lemma NoDup_map_inj {A B} (f : A -> B) l :
  (forall x y, f x = f y -> x = y) -> NoDup l -> NoDup (map f l).
Proof.
  intros Hinj. induction 1 as [|x l Hx Hl IH]; simpl; constructor; [|exact IH].
  rewrite list_elem_of_In. intros Hin. apply in_map_iff in Hin.
  destruct Hin as (y & Hy & Hin). apply Hinj in Hy. subst y.
  apply Hx. now apply list_elem_of_In.
Qed.

Lemma urlsToCache_NoDup : NoDup urlsToCache.
Proof. apply (bool_decide_unpack _). vm_compute. exact I. Qed.

Lemma manifest_keys_NoDup env :
  NoDup (map (fun q => href (url q)) (manifest_requests env)).
Proof.
  unfold manifest_requests. rewrite map_map. apply NoDup_map_inj.
  - intros p p' H. unfold href in H. simpl in H.
    apply append_inj_l in H. revert H. generalize p p'.
    induction p0 as [|x p0 IH]; intros [|y q]; simpl; try discriminate; auto.
    intros H. injection H as -> H. f_equal. now apply IH.
  - exact urlsToCache_NoDup.
Qed.

Lemma existsb_map_false {A B} (f : B -> bool) (g : A -> B) l :
  (forall x, In x l -> f (g x) = false) -> existsb f (map g l) = false.
Proof.
  induction l as [|x l IH]; simpl; [reflexivity|]. intros H.
  rewrite H by now left. apply IH. intros y Hy. apply H. now right.
Qed.

Lemma manifest_outcomes env :
  manifest_ok env <->
  http_origin env = true /\
  existsb (outcome_bad env) (map (network env) (manifest_requests env)) = false /\
  existsb outcome_hangs (map (network env) (manifest_requests env)) = false.
Proof.
  unfold manifest_ok, manifest_requests. rewrite map_map. split.
  - intros [Ho H]. split; [exact Ho|].
    split; apply existsb_map_false; intros p Hp;
      destruct (H p Hp) as (r & -> & Hok & Hst); simpl; [now rewrite Hok, Hst|reflexivity].
  - intros (Ho & Hb & Hh). split; [exact Ho|]. intros p Hp.
    assert (Hin : In (network env (request_of_path env p))
                    (map (fun x => network env (request_of_path env x)) urlsToCache)).
    { apply in_map_iff. now exists p. }
    destruct (network env (request_of_path env p)) as [r| |] eqn:E.
    + exists r. split; [reflexivity|].
      destruct (ok r && storable env r) eqn:Hacc; [now apply andb_true_iff in Hacc|].
      apply not_true_iff_false in Hb. destruct Hb. apply existsb_exists.
      exists (NetOk r). split; [exact Hin|]. simpl. now rewrite Hacc.
    + apply not_true_iff_false in Hb. destruct Hb. apply existsb_exists.
      exists NetFail. now split.
    + apply not_true_iff_false in Hh. destruct Hh. apply existsb_exists.
      exists NetHang. now split.
Qed.

(** ** The claim on the install listener *)

(** C5: when the fetch of one manifest entry fails, the promise of
    [install] rejects, [skipWaiting] is not called, and the storage holds
    nothing of the attempt: the current cache was opened and is otherwise
    as before.  When [cache.addAll] takes the whole manifest (every entry
    fetched over http(s) with an ok status and a response the cache
    accepts), the promise fulfils, every entry is in the current cache with
    the response the network gave, and [skipWaiting] is the call that
    follows the fetches of [cache.addAll]. *)
Theorem install_all_or_nothing env w :
  ((exists path, In path urlsToCache /\
      network env (request_of_path env path) = NetFail) ->
   (exists e, fst (on_install env w) = Normal (Rejected e)) /\
   ~ In EvSkipWaiting (events_since w (snd (on_install env w))) /\
   storage (snd (on_install env w)) = storage_open CACHE_NAME (storage w)) /\
  (manifest_ok env ->
   fst (on_install env w) = Normal (Fulfilled VUndefined) /\
   events_since w (snd (on_install env w)) =
     (EvCachesOpen CACHE_NAME ::
      EvCacheAddAll CACHE_NAME (map (fun q => href (url q)) (manifest_requests env)) ::
      map EvFetch (manifest_requests env) ++ [EvSkipWaiting])%list /\
   (forall path r, In path urlsToCache ->
      network env (request_of_path env path) = NetOk r ->
      cached_in_current (snd (on_install env w))
        (href (url (request_of_path env path))) = Some r)).
Proof.
  rewrite on_install_run. cbv zeta. split.
  - intros (path & Hin & Hfail).
    destruct (negb (http_origin env)).
    { cbn [fst snd storage]. split; [eauto|]. split; [|reflexivity].
      rewrite events_since_app. intros [H|[H|[]]]; discriminate. }
    assert (Hb : existsb (outcome_bad env) (map (network env) (manifest_requests env))
                 = true).
    { apply existsb_exists. exists NetFail. split; [|reflexivity].
      rewrite <- Hfail. unfold manifest_requests. rewrite map_map.
      apply in_map_iff. now exists path. }
    rewrite Hb. cbn [fst snd storage]. split; [eauto|]. split; [|reflexivity].
    rewrite events_since_app. intros [H|[H|H]]; try discriminate.
    apply in_map_iff in H. destruct H as (q & Hq & _). discriminate.
  - intros Hall. apply manifest_outcomes in Hall. destruct Hall as (Ho & Hb & Hh).
    rewrite Ho, Hb, Hh. cbn [negb fst snd]. split; [reflexivity|]. split.
    + rewrite <- app_assoc. rewrite events_since_app. reflexivity.
    + intros path r Hin Hnet. unfold cached_in_current, current_cache. cbn [storage].
      apply (storage_lookup_put_all env); auto.
      * apply manifest_keys_NoDup.
      * apply storage_has_open.
      * unfold manifest_requests. now apply in_map.
Qed.

Lemma install_all_or_nothing_witness :
  ((In "/static/images/gopher.jpg" urlsToCache /\
    network flaky_env (request_of_path flaky_env "/static/images/gopher.jpg") = NetFail) /\
   fst (on_install flaky_env previous_world) =
     Normal (Rejected "TypeError: Request failed") /\
   current_cache (snd (on_install flaky_env previous_world)) = Some ∅) /\
  (manifest_ok (online_env asset) /\
   fst (on_install (online_env asset) previous_world) = Normal (Fulfilled VUndefined) /\
   cached_in_current (snd (on_install (online_env asset) previous_world))
     "https://spackler.example/static/offline.html" = Some asset).
Proof.
  assert (Hin : In "/static/images/gopher.jpg" urlsToCache) by (simpl; tauto).
  assert (Hall : manifest_ok (online_env asset)).
  { split; [reflexivity|]. intros; exists asset; now repeat split. }
  destruct (install_all_or_nothing flaky_env previous_world) as [Hfail _].
  destruct (install_all_or_nothing (online_env asset) previous_world) as [_ Hgood].
  split.
  - split; [now split|]. split; [reflexivity|].
    destruct Hfail as (_ & _ & Hst); [now exists "/static/images/gopher.jpg"|].
    unfold current_cache. rewrite Hst. reflexivity.
  - split; [exact Hall|]. destruct (Hgood Hall) as (Hok & _ & Hpop).
    split; [exact Hok|]. apply (Hpop "/static/offline.html" asset); [simpl; tauto|reflexivity].
Defined.

(** A whole deployment on the sample storage: install populates
    [spackler-v3], activate then deletes the two older generations and
    leaves the cache of the other application alone. *)
Example install_then_activate_run :
  let w1 := snd (on_install (online_env asset) previous_world) in
  fst (on_activate offline_env w1) = Normal (Fulfilled VUndefined) /\
  storage_names (storage (snd (on_activate offline_env w1))) = ["fonts"; "spackler-v3"] /\
  storage_lookup "fonts" (storage (snd (on_activate offline_env w1))) =
    Some {[ "https://fonts.example/inter.woff2" := font ]}.
Proof. vm_compute. repeat split; reflexivity. Qed.

(** * Further properties *)

(** ** The fetch listener as a whole *)

(** The storage a request leaves: written only when the listener handles
    the request and the network answers. *)
Lemma on_fetch_storage env request w :
  storage (snd (on_fetch env request w)) =
  match network env request with
  | NetOk r =>
      if (method request =? "GET") && negb (String.prefix "/api/" (pathname (url request)))
      then written env request r (storage w)
      else storage w
  | _ => storage w
  end.
Proof.
  destruct (String.eqb_spec (method request) "GET") as [Hm|Hm].
  2: { rewrite (on_fetch_bypass env request w (or_introl Hm)).
       now destruct (network env request). }
  destruct (String.prefix "/api/" (pathname (url request))) eqn:Hp.
  { rewrite (on_fetch_bypass env request w (or_intror Hp)).
    now destruct (network env request). }
  assert (Hc : cached_by request) by now split.
  destruct (String.eqb_spec (mode request) "navigate") as [Hn|Hn].
  - destruct (network env request) as [r| |] eqn:Hnet.
    + now rewrite (on_fetch_navigate_ok _ _ _ _ Hc Hn Hnet).
    + rewrite (on_fetch_navigate_fail _ _ _ Hc Hn Hnet).
      now destruct (storage_match (href (url request)) (storage w)).
    + now rewrite (on_fetch_navigate_hang _ _ _ Hc Hn Hnet).
  - rewrite (on_fetch_swr _ _ _ Hc Hn). unfold revalidated. cbn [snd].
    now destruct (network env request).
Qed.

(** The platform calls of a handled request, by strategy and outcome. *)
Lemma on_fetch_trace env request w :
  cached_by request ->
  exists t,
    trace (snd (on_fetch env request w)) = (trace w ++ t)%list /\
    fetches_of t = [request] /\
    forallb routing_call t = true.
Proof.
  intros Hc.
  destruct (String.eqb_spec (mode request) "navigate") as [Hn|Hn].
  - destruct (network env request) as [r| |] eqn:Hnet.
    + rewrite (on_fetch_navigate_ok _ _ _ _ Hc Hn Hnet). eexists. split; [reflexivity|].
      now split.
    + rewrite (on_fetch_navigate_fail _ _ _ Hc Hn Hnet).
      destruct (storage_match (href (url request)) (storage w));
        (eexists; split; [reflexivity|]; now split).
    + rewrite (on_fetch_navigate_hang _ _ _ Hc Hn Hnet). eexists. split; [reflexivity|].
      now split.
  - rewrite (on_fetch_swr _ _ _ Hc Hn). unfold revalidated. cbn [snd].
    destruct (network env request); (eexists; split; [reflexivity|]; now split).
Qed.

Lemma storage_names_open name st :
  storage_names (storage_open name st) =
  if storage_has name st then storage_names st else (storage_names st ++ [name])%list.
Proof.
  unfold storage_open. destruct (storage_has name st); [reflexivity|].
  unfold storage_names. now rewrite map_app.
Qed.

Lemma storage_match_put_ne name key key' r st :
  key' <> key ->
  storage_match key' (storage_put name key r st) = storage_match key' st.
Proof.
  intros Hne. induction st as [|[n c] st IH]; simpl; [reflexivity|].
  destruct (n =? name); simpl.
  - rewrite lookup_insert_ne by congruence. reflexivity.
  - now rewrite IH.
Qed.

(** X1: the fetch listener calls the platform only to look a request up,
    to fetch it, and to open or write the cache of the current generation;
    it leaves every other cache as it was, removes no cache, and adds at
    most the cache of the current generation. *)
Theorem fetch_frame env request w :
  Forall (fun e => routing_call e = true)
    (events_since w (snd (on_fetch env request w))) /\
  (forall n, n <> CACHE_NAME ->
     storage_lookup n (storage (snd (on_fetch env request w))) =
     storage_lookup n (storage w)) /\
  (forall n, In n (storage_names (storage w)) ->
     In n (storage_names (storage (snd (on_fetch env request w))))) /\
  (forall n, In n (storage_names (storage (snd (on_fetch env request w)))) ->
     In n (storage_names (storage w)) \/ n = CACHE_NAME).
Proof.
  split; [|split].
  - destruct (String.eqb_spec (method request) "GET") as [Hm|Hm].
    2: { rewrite (on_fetch_bypass env request w (or_introl Hm)). cbn [snd].
         rewrite (events_since_trace w w []) by now rewrite app_nil_r. constructor. }
    destruct (String.prefix "/api/" (pathname (url request))) eqn:Hp.
    { rewrite (on_fetch_bypass env request w (or_intror Hp)). cbn [snd].
      rewrite (events_since_trace w w []) by now rewrite app_nil_r. constructor. }
    destruct (on_fetch_trace env request w (conj Hm Hp)) as (t & Ht & _ & Hr).
    rewrite (events_since_trace _ _ _ Ht). apply List.Forall_forall.
    now apply forallb_forall.
  - intros n Hne. now apply on_fetch_other_caches.
  - assert (Hnames :
      storage_names (storage (snd (on_fetch env request w))) = storage_names (storage w) \/
      storage_names (storage (snd (on_fetch env request w))) =
        (storage_names (storage w) ++ [CACHE_NAME])%list).
    { rewrite on_fetch_storage.
      destruct (network env request) as [r| |]; try tauto.
      destruct ((method request =? "GET") &&
                negb (String.prefix "/api/" (pathname (url request)))); [|tauto].
      unfold written. destruct (put_accepts env request (clone r));
        rewrite ?storage_names_put, storage_names_open;
        destruct (storage_has CACHE_NAME (storage w)); tauto. }
    destruct Hnames as [-> | ->]; split; intros n; rewrite ?in_app_iff; simpl;
      intuition congruence.
Qed.

(** X2: a GET request that is not a navigation and has no cached value is
    answered with the network response when the fetch succeeds, whatever
    the response.  When the cache accepts the write, that response is then
    the entry of the request in the cache of the current generation and
    what [caches.match] finds next; a response the cache rejects (a 206) is
    delivered all the same and leaves the request without a cached
    value. *)
Theorem swr_miss_network_ok env request r w :
  cached_by request ->
  mode request <> "navigate" ->
  storage_match (href (url request)) (storage w) = None ->
  network env request = NetOk r ->
  delivery (fst (on_fetch env request w)) = Served r /\
  (put_accepts env request r = true ->
   cached_in_current (snd (on_fetch env request w)) (href (url request)) = Some r /\
   storage_match (href (url request)) (storage (snd (on_fetch env request w))) = Some r) /\
  (put_accepts env request r = false ->
   storage_match (href (url request)) (storage (snd (on_fetch env request w))) = None).
Proof.
  intros Hc Hn Hm Hnet. rewrite (on_fetch_swr _ _ _ Hc Hn), Hm, Hnet. cbn [fst snd].
  split; [reflexivity|]. unfold revalidated. rewrite Hnet.
  split; intros Hacc.
  - rewrite cached_in_current_written, Hacc, clone_eq. split; [reflexivity|].
    cbn [storage]. unfold written. rewrite !clone_eq, Hacc.
    apply storage_match_put_fresh; [now rewrite storage_match_open|apply storage_has_open].
  - cbn [storage]. unfold written. rewrite !clone_eq, Hacc.
    now rewrite storage_match_open.
Qed.

Lemma swr_miss_network_ok_witness :
  (cached_by script_request /\ mode script_request <> "navigate" /\
   storage_match (href (url script_request)) (storage shell_world) = None /\
   network (online_env new_script) script_request = NetOk new_script /\
   network (online_env partial_content) script_request = NetOk partial_content) /\
  (put_accepts (online_env new_script) script_request new_script = true /\
   delivery (fst (on_fetch (online_env new_script) script_request shell_world)) =
     Served new_script /\
   storage_match (href (url script_request))
     (storage (snd (on_fetch (online_env new_script) script_request shell_world))) =
     Some new_script) /\
  (put_accepts (online_env partial_content) script_request partial_content = false /\
   delivery (fst (on_fetch (online_env partial_content) script_request shell_world)) =
     Served partial_content /\
   storage_match (href (url script_request))
     (storage (snd (on_fetch (online_env partial_content) script_request shell_world))) =
     None).
Proof.
  assert (Hc : cached_by script_request) by (split; reflexivity).
  assert (Hn : mode script_request <> "navigate") by discriminate.
  split; [repeat split; auto|].
  destruct (swr_miss_network_ok (online_env new_script) script_request new_script
              shell_world Hc Hn eq_refl eq_refl) as (Hd & Hacc & _).
  destruct (swr_miss_network_ok (online_env partial_content) script_request
              partial_content shell_world Hc Hn eq_refl eq_refl) as (Hd' & _ & Hrej).
  split.
  - split; [reflexivity|]. split; [exact Hd|]. now apply Hacc.
  - split; [reflexivity|]. split; [exact Hd'|]. now apply Hrej.
Defined.

(** X3: a request whose fetch fails or never settles leaves the storage
    exactly as it was, whatever the strategy: the listener writes only a
    response the network gave. *)
Theorem fetch_failure_writes_nothing env request w :
  (forall r, network env request <> NetOk r) ->
  storage (snd (on_fetch env request w)) = storage w.
Proof.
  intros Hnet. rewrite on_fetch_storage.
  destruct (network env request) as [r| |]; [|reflexivity|reflexivity].
  now destruct (Hnet r).
Qed.

Lemma fetch_failure_writes_nothing_witness :
  (forall r, network offline_env page_request <> NetOk r) /\
  storage (snd (on_fetch offline_env page_request warm_world)) = storage warm_world.
Proof.
  assert (H : forall r, network offline_env page_request <> NetOk r) by discriminate.
  split; [exact H|].
  apply (fetch_failure_writes_nothing offline_env page_request warm_world H).
Defined.

(** X4: no timeout.  A navigation whose fetch never settles is never
    answered, even when a response for it is cached; neither is any other
    GET request that has no cached value. *)
Theorem fetch_hang_unanswered env request w :
  cached_by request ->
  network env request = NetHang ->
  mode request = "navigate" \/ storage_match (href (url request)) (storage w) = None ->
  delivery (fst (on_fetch env request w)) = Hang.
Proof.
  intros Hc Hnet Hcase.
  destruct (String.eqb_spec (mode request) "navigate") as [Hn|Hn].
  - now rewrite (on_fetch_navigate_hang _ _ _ Hc Hn Hnet).
  - destruct Hcase as [Hcase|Hm]; [contradiction|].
    now rewrite (on_fetch_swr _ _ _ Hc Hn), Hm, Hnet.
Qed.

Lemma fetch_hang_unanswered_witness :
  (cached_by page_request /\ network hanging_env page_request = NetHang /\
   mode page_request = "navigate") /\
  storage_match (href (url page_request)) (storage visited_world) = Some fresh_page /\
  delivery (fst (on_fetch hanging_env page_request visited_world)) = Hang.
Proof.
  assert (Hc : cached_by page_request) by (split; reflexivity).
  split; [repeat split; auto|]. split; [reflexivity|].
  apply (fetch_hang_unanswered hanging_env page_request visited_world Hc eq_refl).
  now left.
Defined.

(** X5: a request the listener handles is sent to the network exactly
    once, as it came, whether or not a cached value is served. *)
Theorem fetch_once env request w :
  cached_by request ->
  fetches_of (events_since w (snd (on_fetch env request w))) = [request].
Proof.
  intros Hc. destruct (on_fetch_trace env request w Hc) as (t & Ht & Hf & _).
  now rewrite (events_since_trace _ _ _ Ht).
Qed.

Lemma fetch_once_witness :
  cached_by script_request /\
  storage_match (href (url script_request)) (storage warm_world) = Some old_script /\
  fetches_of (events_since warm_world
                (snd (on_fetch hanging_env script_request warm_world))) = [script_request].
Proof.
  assert (Hc : cached_by script_request) by (split; reflexivity).
  split; [exact Hc|]. split; [reflexivity|].
  apply (fetch_once hanging_env script_request warm_world Hc).
Defined.

(** X6: the key is the whole URL, query string included: handling a
    request changes what [caches.match] finds for no other URL. *)
Theorem fetch_other_urls env request w key :
  key <> href (url request) ->
  storage_match key (storage (snd (on_fetch env request w))) =
  storage_match key (storage w).
Proof.
  intros Hne. rewrite on_fetch_storage.
  destruct (network env request) as [r| |]; [|reflexivity|reflexivity].
  destruct ((method request =? "GET") &&
            negb (String.prefix "/api/" (pathname (url request)))); [|reflexivity].
  unfold written. destruct (put_accepts env request (clone r));
    rewrite ?storage_match_put_ne by exact Hne; apply storage_match_open.
Qed.

Lemma fetch_other_urls_witness :
  "https://spackler.example/courses" <> href (url page_request) /\
  cached_in_current (snd (on_fetch (online_env fresh_page) page_request shell_world))
    (href (url page_request)) = Some fresh_page /\
  storage_match "https://spackler.example/courses"
    (storage (snd (on_fetch (online_env fresh_page) page_request shell_world))) = None.
Proof.
  assert (Hne : "https://spackler.example/courses" <> href (url page_request))
    by discriminate.
  split; [exact Hne|]. split; [reflexivity|].
  rewrite (fetch_other_urls (online_env fresh_page) page_request shell_world _ Hne).
  reflexivity.
Defined.

Lemma match_before_match name key st r :
  match_before name key st = Some r -> storage_match key st = Some r.
Proof.
  induction st as [|[n c] st IH]; simpl; [discriminate|].
  destruct (n =? name); [discriminate|]. destruct (c !! key); auto.
Qed.

Lemma match_before_put name key key' r' st :
  match_before name key (storage_put name key' r' st) = match_before name key st.
Proof.
  induction st as [|[n c] st IH]; simpl; [reflexivity|].
  destruct (n =? name) eqn:E; simpl; rewrite E; [reflexivity|].
  destruct (c !! key); [reflexivity|exact IH].
Qed.

Lemma match_before_open name key st r :
  match_before name key st = Some r ->
  match_before name key (storage_open name st) = Some r.
Proof.
  unfold storage_open. destruct (storage_has name st); [auto|].
  induction st as [|[n c] st IH]; simpl; [discriminate|].
  destruct (n =? name); [discriminate|]. destruct (c !! key); auto.
Qed.

(** X7: [caches.match] searches every cache in creation order while the
    listener writes to the cache of the current generation only.  When a
    cache created before it holds the request, that older response is
    served; the fresh one goes to the current cache, where it is the entry
    afterwards when the cache accepts the write; and the next request is
    served the older response again, whatever was written. *)
Theorem swr_older_cache_shadows env request old r w :
  cached_by request ->
  mode request <> "navigate" ->
  match_before CACHE_NAME (href (url request)) (storage w) = Some old ->
  network env request = NetOk r ->
  delivery (fst (on_fetch env request w)) = Served old /\
  (put_accepts env request r = true ->
   cached_in_current (snd (on_fetch env request w)) (href (url request)) = Some r) /\
  (forall env',
     delivery (fst (on_fetch env' request (snd (on_fetch env request w)))) = Served old).
Proof.
  intros Hc Hn Hb Hnet.
  assert (Hm := match_before_match _ _ _ _ Hb).
  rewrite (on_fetch_swr _ _ _ Hc Hn), Hm. cbn [fst snd].
  split; [reflexivity|]. split.
  - intros Hacc. rewrite (cached_in_current_revalidated _ _ _ _ Hnet), Hacc.
    now rewrite clone_eq.
  - intros env'. rewrite (on_fetch_swr _ _ _ Hc Hn). cbn [fst].
    unfold revalidated at 1. rewrite Hnet. cbn [storage].
    erewrite match_before_match; [reflexivity|].
    unfold written. destruct (put_accepts env request (clone r));
      rewrite ?match_before_put; now apply match_before_open.
Qed.

Lemma swr_older_cache_shadows_witness :
  (cached_by script_request /\ mode script_request <> "navigate" /\
   match_before CACHE_NAME (href (url script_request)) (storage shadowed_world)
     = Some old_script /\
   network (online_env new_script) script_request = NetOk new_script /\
   put_accepts (online_env new_script) script_request new_script = true) /\
  cached_in_current
    (snd (on_fetch (online_env new_script) script_request shadowed_world))
    (href (url script_request)) = Some new_script /\
  delivery (fst (on_fetch (online_env new_script) script_request
                   (snd (on_fetch (online_env new_script) script_request
                           shadowed_world)))) = Served old_script.
Proof.
  assert (Hc : cached_by script_request) by (split; reflexivity).
  assert (Hn : mode script_request <> "navigate") by discriminate.
  split; [repeat split; auto|].
  destruct (swr_older_cache_shadows (online_env new_script) script_request
              old_script new_script shadowed_world Hc Hn eq_refl eq_refl)
    as (_ & Hs & Hnext).
  split; [now apply Hs|apply Hnext].
Defined.

(** ** The message listener *)

(** X8: the message listener calls [skipWaiting] exactly when the message
    is the string ['skipWaiting'], makes no other platform call, and never
    touches the storage. *)
Theorem message_skip_waiting_only data w :
  storage (snd (on_message data w)) = storage w /\
  (data = VString "skipWaiting" ->
   events_since w (snd (on_message data w)) = [EvSkipWaiting]) /\
  (data <> VString "skipWaiting" -> snd (on_message data w) = w).
Proof.
  rewrite on_message_run. cbn [snd].
  destruct data as [| | |s| | | |]; try (split; [reflexivity|split; [discriminate|reflexivity]]).
  destruct (String.eqb_spec s "skipWaiting") as [->|Hne]; cbn [storage].
  - split; [reflexivity|]. split; [|congruence]. intros _. apply events_since_app.
  - split; [reflexivity|]. split; [|reflexivity]. intros H. injection H as ->.
    contradiction.
Qed.

(** ** The activate listener as a whole *)

Lemma filter_all {A} (f : A -> bool) l :
  (forall x, In x l -> f x = true) -> List.filter f l = l.
Proof.
  induction l as [|x l IH]; simpl; [reflexivity|]. intros H.
  rewrite (H x) by now left. f_equal. apply IH. intros y Hy. apply H. now right.
Qed.

Lemma filter_none {A} (f : A -> bool) l :
  (forall x, In x l -> f x = false) -> List.filter f l = [].
Proof.
  induction l as [|x l IH]; simpl; [reflexivity|]. intros H.
  rewrite (H x) by now left. apply IH. intros y Hy. apply H. now right.
Qed.

Lemma deletion_fails_false env names :
  deletion_fails env names = false <->
  (forall n, In n names -> stale n = true -> delete_rejects env n = false).
Proof.
  unfold deletion_fails. split.
  - intros H n Hn Hs. destruct (delete_rejects env n) eqn:Hr; [|reflexivity].
    apply not_true_iff_false in H. destruct H. apply existsb_exists. exists n.
    now rewrite Hs, Hr.
  - intros H. apply not_true_iff_false. intros He. apply existsb_exists in He.
    destruct He as (n & Hn & Hb). apply andb_true_iff in Hb. destruct Hb as [Hs Hr].
    rewrite (H n Hn Hs) in Hr. discriminate.
Qed.

Lemma on_activate_no_stale env w :
  (forall n, In n (storage_names (storage w)) -> stale n = false) ->
  on_activate env w =
  (Normal (Fulfilled VUndefined),
   {| storage := storage w; trace := trace w ++ [EvCachesKeys; EvClientsClaim] |}).
Proof.
  intros Hs. rewrite on_activate_run.
  assert (Hf : deletion_fails env (storage_names (storage w)) = false).
  { apply deletion_fails_false. intros n Hn Hst. rewrite (Hs n Hn) in Hst. discriminate. }
  rewrite Hf, sweep_filter, (filter_none stale) by exact Hs.
  rewrite filter_all; [reflexivity|].
  intros [n c] Hin. unfold kept. simpl. rewrite (Hs n); [reflexivity|].
  unfold storage_names. apply in_map_iff. now exists (n, c).
Qed.

(** X9: on a storage without a stale cache, [activate] deletes nothing:
    it lists the caches, claims the clients, fulfils, and leaves the
    storage as it was. *)
Theorem activate_nothing_stale env w :
  (forall n, In n (storage_names (storage w)) -> stale n = false) ->
  on_activate env w =
  (Normal (Fulfilled VUndefined),
   {| storage := storage w; trace := trace w ++ [EvCachesKeys; EvClientsClaim] |}).
Proof. apply on_activate_no_stale. Qed.

Lemma activate_nothing_stale_witness :
  (forall n, In n (storage_names (storage shell_world)) -> stale n = false) /\
  on_activate stubborn_env shell_world =
  (Normal (Fulfilled VUndefined),
   {| storage := storage shell_world; trace := [EvCachesKeys; EvClientsClaim] |}).
Proof.
  assert (H : forall n, In n (storage_names (storage shell_world)) -> stale n = false).
  { intros n [<-|[<-|[]]]; reflexivity. }
  split; [exact H|]. exact (activate_nothing_stale stubborn_env shell_world H).
Defined.


(** X11: [clients.claim] comes after [Promise.all]: the promise of
    [activate] fulfils, with the claim as its last call, exactly when no
    deletion of a stale cache is rejected; otherwise it rejects and the
    clients are not claimed. *)
Theorem activate_claims_after_deletions env w :
  ((forall n, In n (storage_names (storage w)) -> stale n = true ->
      delete_rejects env n = false) ->
   fst (on_activate env w) = Normal (Fulfilled VUndefined) /\
   exists t, events_since w (snd (on_activate env w)) = (t ++ [EvClientsClaim])%list /\
             ~ In EvClientsClaim t) /\
  ((exists n, In n (storage_names (storage w)) /\ stale n = true /\
      delete_rejects env n = true) ->
   (exists e, fst (on_activate env w) = Normal (Rejected e)) /\
   ~ In EvClientsClaim (events_since w (snd (on_activate env w)))).
Proof.
  assert (Hnc : forall l, ~ In EvClientsClaim (EvCachesKeys :: map EvCachesDelete l)).
  { intros l [H|H]; [discriminate|]. apply in_map_iff in H.
    destruct H as (x & Hx & _). discriminate. }
  rewrite on_activate_run. split.
  - intros H. apply deletion_fails_false in H. rewrite H. cbn [fst snd].
    split; [reflexivity|]. rewrite events_since_app.
    eexists (EvCachesKeys :: map EvCachesDelete _). split; [reflexivity|apply Hnc].
  - intros (n & Hn & Hs & Hr).
    assert (Hf : deletion_fails env (storage_names (storage w)) = true).
    { apply existsb_exists. exists n. now rewrite Hs, Hr. }
    rewrite Hf. cbn [fst snd]. split; [eauto|]. rewrite events_since_app. apply Hnc.
Qed.

Lemma activate_claims_after_deletions_witness :
  ((forall n, In n (storage_names (storage crowded_world)) -> stale n = true ->
      delete_rejects offline_env n = false) /\
   fst (on_activate offline_env crowded_world) = Normal (Fulfilled VUndefined)) /\
  ((exists n, In n (storage_names (storage crowded_world)) /\ stale n = true /\
      delete_rejects stubborn_env n = true) /\
   ~ In EvClientsClaim
       (events_since crowded_world (snd (on_activate stubborn_env crowded_world)))).
Proof.
  assert (H1 : forall n, In n (storage_names (storage crowded_world)) -> stale n = true ->
      delete_rejects offline_env n = false) by reflexivity.
  assert (H2 : exists n, In n (storage_names (storage crowded_world)) /\ stale n = true /\
      delete_rejects stubborn_env n = true).
  { exists "spackler-v1". repeat split. now left. }
  split.
  - split; [exact H1|].
    apply (proj1 (activate_claims_after_deletions offline_env crowded_world) H1).
  - split; [exact H2|].
    apply (proj2 (activate_claims_after_deletions stubborn_env crowded_world) H2).
Defined.

Lemma storage_lookup_filter_out (f : string -> bool) name st :
  f name = false ->
  storage_lookup name (List.filter (fun x => f (fst x)) st) = None.
Proof.
  intros Hf. induction st as [|[n c] st IH]; simpl; [reflexivity|].
  destruct (f n) eqn:E; simpl; [|exact IH].
  destruct (String.eqb_spec n name) as [->|Hne]; [congruence|exact IH].
Qed.

(** X12: what [activate] does to each cache.  A stale cache whose
    deletion goes through is gone; every other cache, the current one and
    a stale one whose deletion is rejected included, is found afterwards
    with the content it had. *)
Theorem activate_cache_by_cache env w n :
  storage_lookup n (storage (snd (on_activate env w))) =
  if stale n && negb (delete_rejects env n) then None
  else storage_lookup n (storage w).
Proof.
  rewrite activate_storage.
  destruct (stale n && negb (delete_rejects env n)) eqn:E.
  - apply (storage_lookup_filter_out (kept env)). unfold kept. now rewrite E.
  - apply (storage_lookup_filter (kept env)). unfold kept. now rewrite E.
Qed.

(** ** The install listener as a whole *)

Lemma storage_lookup_put_all_ne name n reqs : forall os st,
  n <> name ->
  storage_lookup n (put_all name reqs os st) = storage_lookup n st.
Proof.
  induction reqs as [|q reqs IH]; intros [|[r| |] os] st Hne; simpl; try reflexivity.
  rewrite IH by exact Hne. now apply storage_lookup_put_ne.
Qed.

Lemma on_install_storage env w :
  storage (snd (on_install env w)) = storage_open CACHE_NAME (storage w) \/
  storage (snd (on_install env w)) =
    put_all CACHE_NAME (manifest_requests env)
      (map (network env) (manifest_requests env))
      (storage_open CACHE_NAME (storage w)).
Proof.
  rewrite on_install_run. cbv zeta.
  destruct (negb (http_origin env)); [now left|].
  destruct (existsb (outcome_bad env) _); [now left|].
  destruct (existsb outcome_hangs _); [now left|now right].
Qed.

Lemma on_install_trace env w :
  exists t,
    trace (snd (on_install env w)) = (trace w ++ t)%list /\
    forallb install_call t = true.
Proof.
  assert (Hf : forall l, forallb install_call (map EvFetch l) = true).
  { induction l; simpl; auto. }
  rewrite on_install_run. cbv zeta.
  destruct (negb (http_origin env));
    [|destruct (existsb (outcome_bad env) _); [|destruct (existsb outcome_hangs _)]];
    cbn [snd trace].
  - eexists. split; reflexivity.
  - eexists. split; [reflexivity|]. cbn [forallb install_call]. now rewrite Hf.
  - eexists. split; [reflexivity|]. cbn [forallb install_call]. now rewrite Hf.
  - rewrite <- app_assoc. eexists. split; [reflexivity|].
    cbn [forallb install_call app]. now rewrite forallb_app, Hf.
Qed.

(** X13: [install] touches the cache of the current generation only.  It
    deletes nothing, leaves every other cache as it was, and in the current
    cache it leaves every entry that is not a manifest URL. *)
Theorem install_frame env w :
  Forall (fun e => install_call e = true)
    (events_since w (snd (on_install env w))) /\
  (forall n, n <> CACHE_NAME ->
     storage_lookup n (storage (snd (on_install env w))) = storage_lookup n (storage w)) /\
  (forall key, ~ In key (map (fun q => href (url q)) (manifest_requests env)) ->
     cached_in_current (snd (on_install env w)) key = cached_in_current w key).
Proof.
  split; [|split].
  - destruct (on_install_trace env w) as (t & Ht & Hc).
    rewrite (events_since_trace _ _ _ Ht). apply List.Forall_forall.
    now apply forallb_forall.
  - intros n Hne. destruct (on_install_storage env w) as [-> | ->].
    + now apply storage_lookup_open_ne.
    + rewrite storage_lookup_put_all_ne by exact Hne. now apply storage_lookup_open_ne.
  - intros key Hk. unfold cached_in_current, current_cache.
    assert (Ho : match storage_lookup CACHE_NAME (storage_open CACHE_NAME (storage w)) with
                 | Some c => c !! key
                 | None => None
                 end =
                 match storage_lookup CACHE_NAME (storage w) with
                 | Some c => c !! key
                 | None => None
                 end).
    { rewrite storage_lookup_open.
      destruct (storage_lookup CACHE_NAME (storage w)); [reflexivity|apply lookup_empty]. }
    destruct (on_install_storage env w) as [-> | ->]; [exact Ho|].
    now rewrite storage_lookup_put_all_other.
Qed.

(** X14: [skipWaiting] is called, and the promise of [install] fulfils,
    exactly when [cache.addAll] takes the whole manifest: the origin is
    over http(s) and every entry is fetched with an ok status and a
    response the cache accepts.  One entry answered with an error status
    or with a 206, one entry the environment refuses, or one fetch that
    never settles, is enough for the storage to hold nothing of the
    attempt. *)
Theorem install_ready_iff_manifest_ok env w :
  (manifest_ok env <-> fst (on_install env w) = Normal (Fulfilled VUndefined)) /\
  (manifest_ok env <-> In EvSkipWaiting (events_since w (snd (on_install env w)))) /\
  (~ manifest_ok env ->
   storage (snd (on_install env w)) = storage_open CACHE_NAME (storage w)).
Proof.
  assert (Hns : forall a b l, ~ In EvSkipWaiting
                  (EvCachesOpen a :: EvCacheAddAll a b :: map EvFetch l)).
  { intros a b l [H|[H|H]]; try discriminate. apply in_map_iff in H.
    destruct H as (x & Hx & _). discriminate. }
  rewrite manifest_outcomes, on_install_run. cbv zeta.
  destruct (http_origin env); cbn [negb].
  2: { cbn [fst snd storage]. rewrite events_since_app.
       split; [|split; [|reflexivity]].
       - split; [intros [H _]|]; discriminate.
       - split; [intros [H _]; discriminate|]. intros [H|[H|[]]]; discriminate. }
  destruct (existsb (outcome_bad env) _); [|destruct (existsb outcome_hangs _)];
    cbn [fst snd storage].
  - rewrite events_since_app. split; [|split; [|reflexivity]].
    + split; [intros (_ & H & _)|]; discriminate.
    + split; [intros (_ & H & _); discriminate|]. intros H. now apply Hns in H.
  - rewrite events_since_app. split; [|split; [|reflexivity]].
    + split; [intros (_ & _ & H)|]; discriminate.
    + split; [intros (_ & _ & H); discriminate|]. intros H. now apply Hns in H.
  - rewrite <- app_assoc, events_since_app. split; [|split].
    + now split.
    + split; [|now split]. intros _. do 2 apply in_cons.
      apply in_or_app. right. now left.
    + intros H. destruct H. now split.
Qed.

Lemma install_ready_iff_manifest_ok_witness :
  (status not_found = 404%N /\
   network missing_env (request_of_path missing_env "/static/images/gopher.jpg")
     = NetOk not_found /\
   ~ manifest_ok missing_env /\
   ~ In EvSkipWaiting
       (events_since previous_world (snd (on_install missing_env previous_world))) /\
   current_cache (snd (on_install missing_env previous_world)) = Some ∅) /\
  (status partial_content = 206%N /\ ok partial_content = true /\
   ~ manifest_ok (online_env partial_content) /\
   fst (on_install (online_env partial_content) previous_world)
     <> Normal (Fulfilled VUndefined) /\
   current_cache (snd (on_install (online_env partial_content) previous_world)) = Some ∅) /\
  (put_rejects refusing_env asset = true /\
   ~ manifest_ok refusing_env /\
   fst (on_install refusing_env previous_world) <> Normal (Fulfilled VUndefined)) /\
  (~ manifest_ok slow_env /\
   fst (on_install slow_env previous_world) <> Normal (Fulfilled VUndefined)) /\
  (manifest_ok (online_env asset) /\
   In EvSkipWaiting
     (events_since previous_world (snd (on_install (online_env asset) previous_world)))).
Proof.
  assert (Hgopher : In "/static/images/gopher.jpg" urlsToCache) by (simpl; tauto).
  assert (Hm : ~ manifest_ok missing_env).
  { intros [_ H]. destruct (H _ Hgopher) as (r & Hr & Hok & _).
    injection Hr as <-. discriminate. }
  assert (Hp : ~ manifest_ok (online_env partial_content)).
  { intros [_ H]. destruct (H _ Hgopher) as (r & Hr & _ & Hst).
    injection Hr as <-. discriminate. }
  assert (Hv : ~ manifest_ok refusing_env).
  { intros [_ H]. destruct (H _ Hgopher) as (r & Hr & _ & Hst).
    injection Hr as <-. discriminate. }
  assert (Hs : ~ manifest_ok slow_env).
  { intros [_ H]. destruct (H _ Hgopher) as (r & Hn & _). discriminate. }
  assert (Hok : manifest_ok (online_env asset)).
  { split; [reflexivity|]. intros; exists asset; now repeat split. }
  destruct (install_ready_iff_manifest_ok missing_env previous_world) as (_ & Hskip & Hst).
  destruct (install_ready_iff_manifest_ok (online_env partial_content) previous_world)
    as (Hfulp & _ & Hstp).
  destruct (install_ready_iff_manifest_ok refusing_env previous_world) as (Hfulr & _ & _).
  destruct (install_ready_iff_manifest_ok slow_env previous_world) as (Hful & _ & _).
  destruct (install_ready_iff_manifest_ok (online_env asset) previous_world)
    as (_ & Hskipok & _).
  split; [|split; [|split; [|split]]].
  - split; [reflexivity|]. split; [reflexivity|]. split; [exact Hm|]. split.
    + intros H. apply Hm. now apply Hskip.
    + unfold current_cache. rewrite (Hst Hm). reflexivity.
  - split; [reflexivity|]. split; [reflexivity|]. split; [exact Hp|]. split.
    + intros H. apply Hp. now apply Hfulp.
    + unfold current_cache. rewrite (Hstp Hp). reflexivity.
  - split; [reflexivity|]. split; [exact Hv|]. intros H. apply Hv. now apply Hfulr.
  - split; [exact Hs|]. intros H. apply Hs. now apply Hful.
  - split; [exact Hok|]. now apply Hskipok.
Defined.

(** ** Install, activate and fetch together *)

Lemma install_populates env w path r :
  manifest_ok env ->
  In path urlsToCache ->
  network env (request_of_path env path) = NetOk r ->
  cached_in_current (snd (on_install env w)) (href (url (request_of_path env path)))
  = Some r.
Proof.
  intros Hok Hin Hnet. apply manifest_outcomes in Hok. destruct Hok as (Ho & Hb & Hh).
  rewrite on_install_run. cbv zeta. rewrite Ho, Hb, Hh. cbn [negb snd].
  unfold cached_in_current, current_cache. cbn [storage].
  apply (storage_lookup_put_all env); auto.
  - apply manifest_keys_NoDup.
  - apply storage_has_open.
  - unfold manifest_requests. now apply in_map.
Qed.

Lemma cached_in_current_match w key r :
  cached_in_current w key = Some r ->
  exists d, storage_match key (storage w) = Some d.
Proof.
  unfold cached_in_current, current_cache.
  induction (storage w) as [|[n c] st IH]; simpl; [discriminate|].
  destruct (c !! key) as [d|] eqn:E; [eauto|].
  destruct (n =? CACHE_NAME); [congruence|exact IH].
Qed.

Lemma activate_keeps_current env w key :
  cached_in_current (snd (on_activate env w)) key = cached_in_current w key.
Proof.
  unfold cached_in_current, current_cache. rewrite activate_storage.
  now rewrite (storage_lookup_filter (kept env)).
Qed.

(** After an install that succeeded and an activate, whatever it deleted,
    [caches.match] finds every manifest URL. *)
Lemma deployed_manifest_match env1 env2 w path :
  manifest_ok env1 ->
  In path urlsToCache ->
  exists d,
    storage_match (href (url (request_of_path env1 path)))
      (storage (snd (on_activate env2 (snd (on_install env1 w))))) = Some d.
Proof.
  intros Hok Hin. destruct (proj2 Hok path Hin) as (r & Hnet & _).
  apply (cached_in_current_match _ _ r). rewrite activate_keeps_current.
  now apply install_populates.
Qed.

(** X15: the offline document is a manifest entry, so once an install has
    succeeded and activate has run, a navigation that finds the network
    down is always answered with a stored response, never with a network
    error. *)
Theorem deployed_navigation_never_fails env1 env2 env3 request w :
  manifest_ok env1 ->
  scope_origin env3 = scope_origin env1 ->
  cached_by request ->
  mode request = "navigate" ->
  network env3 request = NetFail ->
  exists d,
    delivery (fst (on_fetch env3 request
                     (snd (on_activate env2 (snd (on_install env1 w)))))) = Served d.
Proof.
  intros Hok Ho Hc Hn Hnet. rewrite (on_fetch_navigate_fail _ _ _ Hc Hn Hnet).
  destruct (storage_match (href (url request)) _) as [c|]; [now exists c|].
  destruct (deployed_manifest_match env1 env2 w "/static/offline.html" Hok) as (d & Hd);
    [simpl; tauto|].
  exists d. cbn [fst]. unfold offline_key, request_of_path in *. rewrite Ho.
  cbn [url] in *. now rewrite Hd.
Qed.

Lemma deployed_navigation_never_fails_witness :
  (manifest_ok origin_env /\ scope_origin offline_env = scope_origin origin_env /\
   cached_by page_request /\ mode page_request = "navigate" /\
   network offline_env page_request = NetFail) /\
  delivery (fst (on_fetch offline_env page_request
                   (snd (on_activate offline_env
                           (snd (on_install origin_env previous_world))))))
  = Served offline_doc.
Proof.
  assert (Hok : manifest_ok origin_env).
  { split; [reflexivity|]. intros p Hp. simpl in Hp.
    repeat (destruct Hp as [<-|Hp]; [eexists; repeat split; reflexivity|]). destruct Hp. }
  assert (Hc : cached_by page_request) by (split; reflexivity).
  split; [split; [exact Hok|repeat split; auto]|].
  destruct (deployed_navigation_never_fails origin_env offline_env offline_env
              page_request previous_world Hok eq_refl Hc eq_refl eq_refl) as (d & Hd).
  rewrite Hd. vm_compute in Hd. injection Hd as <-. reflexivity.
Defined.

(** X16: once an install has succeeded and activate has run, a request
    for a manifest URL that is not a navigation is answered from the cache
    whatever the network does. *)
Theorem deployed_manifest_served env1 env2 env3 request path w :
  manifest_ok env1 ->
  In path urlsToCache ->
  cached_by request ->
  mode request <> "navigate" ->
  href (url request) = href (url (request_of_path env1 path)) ->
  exists d,
    delivery (fst (on_fetch env3 request
                     (snd (on_activate env2 (snd (on_install env1 w)))))) = Served d.
Proof.
  intros Hok Hin Hc Hn Hk. rewrite (on_fetch_swr _ _ _ Hc Hn). cbn [fst]. rewrite Hk.
  destruct (deployed_manifest_match env1 env2 w path Hok Hin) as (d & ->).
  now exists d.
Qed.

Lemma deployed_manifest_served_witness :
  (manifest_ok origin_env /\ In "/static/images/icon-192.png" urlsToCache /\
   cached_by icon_request /\ mode icon_request <> "navigate" /\
   href (url icon_request) =
     href (url (request_of_path origin_env "/static/images/icon-192.png"))) /\
  delivery (fst (on_fetch hanging_env icon_request
                   (snd (on_activate offline_env
                           (snd (on_install origin_env previous_world))))))
  = Served asset.
Proof.
  assert (Hok : manifest_ok origin_env).
  { split; [reflexivity|]. intros p Hp. simpl in Hp.
    repeat (destruct Hp as [<-|Hp]; [eexists; repeat split; reflexivity|]). destruct Hp. }
  assert (Hin : In "/static/images/icon-192.png" urlsToCache) by (simpl; tauto).
  assert (Hc : cached_by icon_request) by (split; reflexivity).
  assert (Hn : mode icon_request <> "navigate") by discriminate.
  split; [split; [exact Hok|repeat split; auto]|].
  destruct (deployed_manifest_served origin_env offline_env hanging_env icon_request
              "/static/images/icon-192.png" previous_world Hok Hin Hc Hn eq_refl)
    as (d & Hd).
  rewrite Hd. vm_compute in Hd. injection Hd as <-. reflexivity.
Defined.
